(** * SurfCast wind/wave layer: a shallow embedding of the field
    interpolators, the particle simulation, the LOD controller, the grid
    sample store and the grid-weather endpoint.

    JavaScript numbers are modelled as exact reals [R]; the rounding of
    IEEE doubles and of [Float32Array] storage is abstracted away.
    Integer-valued counters (ages, retry counts, indices) are [Z] or [nat]. *)

From Stdlib Require Import Reals Psatz ZArith List String Bool.
Import ListNotations.
Open Scope R_scope.

(* ------------------------------------------------------------------ *)
(** ** JavaScript / GLSL numeric primitives *)
Module Js.

(** [Math.floor]: the integer part of the Standard Library. *)
Definition floor (x : R) : Z := Int_part x.

(** [Math.round x] is [Math.floor (x + 0.5)] (halves round up). *)
Definition round (x : R) : Z := floor (x + / 2).

Definition max (a b : R) : R := Rmax a b.
Definition min (a b : R) : R := Rmin a b.

(** GLSL [fract], [mix], [step], [clamp]. *)
Definition fract (x : R) : R := x - IZR (floor x).
Definition mix (a b t : R) : R := a * (1 - t) + b * t.
Definition step (edge x : R) : R := if Rlt_dec x edge then 0 else 1.
Definition clamp (x lo hi : R) : R := Rmin (Rmax x lo) hi.

(** [Math.PI / 180]-style degree conversion. *)
Definition degToRad (d : R) : R := d * PI / 180.

End Js.

(* ------------------------------------------------------------------ *)
(** ** Field interpolator of the Leaflet particle layer
    ([src/unnamed/part_006], [interpolateWind], first component). *)
Module Idw.

Record ScreenPoint := mkSP { sx : R; sy : R; su : R; sv : R; sspeed : R }.
Record Wind := mkWind { wu : R; wv : R; wspeed : R }.

Definition distSq (x y : R) (sp : ScreenPoint) : R :=
  (x - sx sp) * (x - sx sp) + (y - sy sp) * (y - sy sp).

(** The [for (const sp of screenPoints)] loop with its accumulators
    [totalWeight], [u], [v], [speed]; the early [return] of the
    exact-match branch ends the recursion. *)
Fixpoint idw_loop (x y maxDistSq : R) (sps : list ScreenPoint)
    (totalWeight u v speed : R) : option Wind :=
  match sps with
  | [] =>
      if Req_dec_T totalWeight 0 then None
      else Some (mkWind (u / totalWeight) (v / totalWeight) (speed / totalWeight))
  | sp :: rest =>
      let d2 := distSq x y sp in
      if Rlt_dec maxDistSq d2 then idw_loop x y maxDistSq rest totalWeight u v speed
      else if Rlt_dec d2 1 then Some (mkWind (su sp) (sv sp) (sspeed sp))
      else
        let w := 1 / d2 in
        idw_loop x y maxDistSq rest (totalWeight + w) (u + su sp * w)
          (v + sv sp * w) (speed + sspeed sp * w)
  end.

(** One element of [projectGridToScreen]: [pixel] is the map engine's
    [latLngToContainerPoint] of the sample, [offset] the map-pane offset. *)
Definition screenPointOf (pixel offset : R * R) (windSpeed windDir : R)
    : ScreenPoint :=
  let rad := windDir * PI / 180 in
  let knots := windSpeed * 0.5399 in
  mkSP (fst pixel - fst offset) (snd pixel - snd offset)
       (- sin rad * knots) (- cos rad * knots) knots.

Definition interpolateWind (x y : R) (screenPoints : list ScreenPoint)
    (maxDist : R) : option Wind :=
  match screenPoints with
  | [] => None
  | _ => idw_loop x y (maxDist * maxDist) screenPoints 0 0 0 0
  end.

(** The spec's scenario: samples at (0,0) (10, 0 deg), (0,1) (90 deg) and
    (1,0) (180 deg), query at (0,0). *)
Definition scenario_sp1 : ScreenPoint := screenPointOf (0, 0) (0, 0) 10 0.
Definition scenario_sp2 : ScreenPoint := screenPointOf (0, 1) (0, 0) 10 90.
Definition scenario_sp3 : ScreenPoint := screenPointOf (1, 0) (0, 0) 10 180.

End Idw.

(* ------------------------------------------------------------------ *)
(** ** Level-of-detail controller ([src/unnamed/part_006], [getZoomParams]). *)
Module Lod.

Definition BASE_ZOOM : R := 4.

Record ZoomParams := mkZP {
  particleCount : R; speedScale : R; trailFade : R;
  maxAge : R; lineWidth : R; interpRadius : R }.

Definition getZoomParams (zoom : R) : ZoomParams :=
  let z := Js.max 2 (Js.min zoom 18) in
  let delta := Js.max 0 (z - BASE_ZOOM) in
  let t := Js.min 1 (delta / 6) in
  let ease := t * t in
  let particleCount := Js.max 150 (IZR (Js.round (1500 * (1 - ease * 0.9)))) in
  let speedScale := 0.12 * Js.max 0.15 (1 - ease * 0.85) in
  let trailFade := Js.min 0.96 (0.92 + ease * 0.04) in
  let maxAge := IZR (Js.round (120 * (1 + ease * 0.8))) in
  let lineWidth := Js.max 0.5 (1.0 - ease * 0.5) in
  let interpRadius := 2000 + IZR (Js.round (delta * delta * 500)) in
  mkZP particleCount speedScale trailFade maxAge lineWidth interpRadius.

(** The intermediate quantities of [getZoomParams], named for the proofs. *)
Definition lod_delta (zoom : R) : R := Js.max 0 (Js.max 2 (Js.min zoom 18) - BASE_ZOOM).
Definition lod_ease (zoom : R) : R :=
  Js.min 1 (lod_delta zoom / 6) * Js.min 1 (lod_delta zoom / 6).
Definition lod_t (z : R) : R := Js.min 1 (lod_delta z / 6).

End Lod.

(* ------------------------------------------------------------------ *)
(** ** Grid samples as the client receives them ([GridPoint]). *)
Module Grid.

Record GridPoint := mkGP {
  lat : R; lng : R; windSpeed : R; windDir : R; temp : R;
  waveHeight : option R; waveDir : option R; wavePeriod : option R }.

End Grid.

(* ------------------------------------------------------------------ *)
(** ** Particle simulation.
    [Math.random()] is a stream of draws [rnd : nat -> R]; the index of
    the next draw is threaded through the code as [k]. *)
Module Particles.
Import Grid.

(** Leaflet particle layer, first component of [part_006]. *)
Record Particle := mkP {
  x : R; y : R; prevX : R; prevY : R; age : Z; maxAge : Z }.

(** The respawn branch of [animate] (lines 491-498): [w], [h] are the
    canvas size read at the start of the frame, [zpMaxAge] is
    [getZoomParams(zoom).maxAge]. *)
Definition respawn (w h : R) (zpMaxAge : Z) (rnd : nat -> R) (k : nat)
    (p : Particle) : Particle * nat :=
  let nx := rnd k * w in
  let ny := rnd (S k) * h in
  (mkP nx ny nx ny 0 (zpMaxAge + Js.floor (rnd (S (S k)) * 40)), S (S (S k))).

(** Flow-field layer, second component of [part_006]. *)
Record FlowParticle := mkFP {
  fx : R; fy : R; fage : Z; fmaxAge : Z; trail : list (R * R); fspeed : R }.

(** [resetParticle] (lines 915-923); [rectW], [rectH] are the container's
    bounding-rectangle size, [TRAIL_LENGTH] the zoom-dependent constant. *)
Definition resetParticle (rectW rectH : R) (TRAIL_LENGTH : Z)
    (rnd : nat -> R) (k : nat) (p : FlowParticle) : FlowParticle * nat :=
  let nx := rnd k * rectW in
  let ny := rnd (S k) * rectH in
  (mkFP nx ny 0 (TRAIL_LENGTH + Js.floor (rnd (S (S k)) * IZR TRAIL_LENGTH))
        [(nx, ny)] 0, S (S (S k))).

(** WebGL component of [part_006], its 2D canvas fallback
    ([initCanvas2DFallback]). *)
Record Particle2D := mkP2 { qx : R; qy : R; qage : Z; qmaxAge : Z }.

Definition PARTICLE_COUNT : nat := 2000.

(** A draw sequence for the initial pool: the first particle draws
    [x = y = 1/2], an age factor of [119/120] and a [maxAge] factor of 0. *)
Definition bad_draws (i : nat) : R :=
  match i with 2%nat => 119 / 120 | 3%nat => 0 | _ => 1 / 2 end.

(** The initial pool: [{x, y, age: floor(random*120), maxAge: 80 + floor(random*80)}]. *)
Fixpoint initPool (W H : R) (rnd : nat -> R) (n k : nat) : list Particle2D :=
  match n with
  | O => []
  | S n' =>
      mkP2 (rnd k * W) (rnd (S k) * H) (Js.floor (rnd (S (S k)) * 120))
           (80 + Js.floor (rnd (S (S (S k))) * 80))
        :: initPool W H rnd n' (S (S (S (S k))))
  end.

Definition resetParticle2D (W H : R) (rnd : nat -> R) (k : nat) (p : Particle2D)
    : Particle2D * nat :=
  (mkP2 (rnd k * W) (rnd (S k) * H) 0 (80 + Js.floor (rnd (S (S k)) * 80)),
   S (S (S k))).

Record Wind := mkWind { wu : R; wv : R; wspeed : R }.

(** [interpolateWind] of the WebGL component (lines 1247-1279): no
    radius, weights [1/d^4], exact match below distance 1.  [project] is
    the map engine's [latLngToContainerPoint], [off] the pane offset. *)
Fixpoint idw4_loop (project : R -> R -> R * R) (off : R * R) (qx0 qy0 : R)
    (points : list GridPoint) (totalW uSum vSum speedSum : R) : option Wind :=
  match points with
  | [] =>
      if Req_dec_T totalW 0 then None
      else Some (mkWind (uSum / totalW) (vSum / totalW) (speedSum / totalW))
  | pt :: rest =>
      let sx := fst (project (lat pt) (lng pt)) - fst off in
      let sy := snd (project (lat pt) (lng pt)) - snd off in
      let dx := qx0 - sx in
      let dy := qy0 - sy in
      let d2 := dx * dx + dy * dy in
      let rad := windDir pt * PI / 180 in
      if Rlt_dec d2 1 then
        Some (mkWind (- sin rad * windSpeed pt) (- cos rad * windSpeed pt) (windSpeed pt))
      else
        let w := 1 / (d2 * d2) in
        idw4_loop project off qx0 qy0 rest (totalW + w)
          (uSum + - sin rad * windSpeed pt * w)
          (vSum + - cos rad * windSpeed pt * w)
          (speedSum + windSpeed pt * w)
  end.

Definition interpolateWind4 (project : R -> R -> R * R) (off : R * R)
    (qx0 qy0 : R) (points : list GridPoint) : option Wind :=
  idw4_loop project off qx0 qy0 points 0 0 0 0.

(** One particle of the fallback's [animate] loop. *)
Definition step2D (project : R -> R -> R * R) (off : R * R)
    (points : list GridPoint) (W H : R) (rnd : nat -> R) (k : nat)
    (p : Particle2D) : Particle2D * nat :=
  match interpolateWind4 project off (qx p) (qy p) points with
  | None => resetParticle2D W H rnd k p
  | Some wind =>
      let speedScale := 0.12 in
      let nx := qx p + wu wind * speedScale in
      let ny := qy p - wv wind * speedScale in
      let nage := (qage p + 1)%Z in
      if (Z.ltb (qmaxAge p) nage)%Z then resetParticle2D W H rnd k p
      else if Rlt_dec nx 0 then resetParticle2D W H rnd k p
      else if Rlt_dec W nx then resetParticle2D W H rnd k p
      else if Rlt_dec ny 0 then resetParticle2D W H rnd k p
      else if Rlt_dec H ny then resetParticle2D W H rnd k p
      else (mkP2 nx ny nage (qmaxAge p), k)
  end.

(** One frame: [for (const p of particles)] in order. *)
Fixpoint frame2D (project : R -> R -> R * R) (off : R * R)
    (points : list GridPoint) (W H : R) (rnd : nat -> R) (k : nat)
    (ps : list Particle2D) : list Particle2D * nat :=
  match ps with
  | [] => ([], k)
  | p :: rest =>
      let (p', k1) := step2D project off points W H rnd k p in
      let (rest', k2) := frame2D project off points W H rnd k1 rest in
      (p' :: rest', k2)
  end.

(** [N] frames with a fixed viewport ([W], [H], [off]) and sample set. *)
Fixpoint frames2D (project : R -> R -> R * R) (off : R * R)
    (points : list GridPoint) (W H : R) (rnd : nat -> R) (N k : nat)
    (ps : list Particle2D) : list Particle2D :=
  match N with
  | O => ps
  | S N' =>
      let (ps', k') := frame2D project off points W H rnd k ps in
      frames2D project off points W H rnd N' k' ps'
  end.

End Particles.

(* ------------------------------------------------------------------ *)
(** ** Particle update fragment shaders ([FRAG_UPDATE])

    The shader runs once per particle; the particle state texture packs
    the position [pos] in [[0,1]^2] into RGBA bytes.  The packing
    [decode (encode pos) = pos] holds up to byte quantisation, which is
    abstracted away here: a shader step is modelled as a map from the
    decoded position to the position it encodes (the packing itself is
    modelled in [StatePacking]).  [texture2D(u_wind, uv).rg] is
    a parameter [u_wind] of the model. *)
Module Shader.

Record vec2 := v2 { vx : R; vy : R }.
Record vec4 := v4 { v4x : R; v4y : R; v4z : R; v4w : R }.

(** Componentwise GLSL vector operations. *)
Definition vadd (a b : vec2) : vec2 := v2 (vx a + vx b) (vy a + vy b).
Definition vmul (a b : vec2) : vec2 := v2 (vx a * vx b) (vy a * vy b).
Definition vadds (a : vec2) (s : R) : vec2 := v2 (vx a + s) (vy a + s).
Definition vscale (a : vec2) (s : R) : vec2 := v2 (vx a * s) (vy a * s).
Definition vinv (a : vec2) : vec2 := v2 (/ vx a) (/ vy a).
Definition vfloor (a : vec2) : vec2 :=
  v2 (IZR (Js.floor (vx a))) (IZR (Js.floor (vy a))).
Definition vfract (a : vec2) : vec2 := v2 (Js.fract (vx a)) (Js.fract (vy a)).
Definition vmix (a b t : vec2) : vec2 :=
  v2 (Js.mix (vx a) (vx b) (vx t)) (Js.mix (vy a) (vy b) (vy t)).
Definition vmixs (a b : vec2) (t : R) : vec2 :=
  v2 (Js.mix (vx a) (vx b) t) (Js.mix (vy a) (vy b) t).
Definition vclamp (a : vec2) (lo hi : R) : vec2 :=
  v2 (Js.clamp (vx a) lo hi) (Js.clamp (vy a) lo hi).
Definition dot (a b : vec2) : R := vx a * vx b + vy a * vy b.
Definition length (a : vec2) : R := sqrt (dot a a).
Definition radians (d : R) : R := d * PI / 180.

(** [rand] of both shaders ([rand_constants = (12.9898, 78.233, 4375.85453)]). *)
Definition rand (co : vec2) : R :=
  let t := dot (v2 12.9898 78.233) co in
  Js.fract (sin t * (4375.85453 + t)).

(** Bilinear wind lookup; [lookup_wind_bilinear] of [part_002] and
    [lookup_wind] of [part_003] are the same computation. *)
Definition lookup_wind (u_wind : vec2 -> vec2) (u_wind_res uv : vec2) : vec2 :=
  let px := vinv u_wind_res in
  let st := vmul uv u_wind_res in
  let ij := vfloor st in
  let f := vfract st in
  let vc := vmul ij px in
  let tl := u_wind vc in
  let tr := u_wind (vadd vc (v2 (vx px) 0)) in
  let bl := u_wind (vadd vc (v2 0 (vy px))) in
  let br := u_wind (vadd vc px) in
  let top_mix := vmixs tl tr (vx f) in
  let bot_mix := vmixs bl br (vx f) in
  vmixs top_mix bot_mix (vy f).

(** [src/unnamed/part_002]: out-of-bounds particles are respawned. *)
Module Update002.
Record Uniforms := mkU {
  u_wind_res : vec2; u_wind_min : vec2; u_wind_max : vec2;
  u_speed_factor : R; u_rand_seed : R;
  u_drop_rate : R; u_drop_rate_bump : R;
  u_merc_south : R; u_merc_north : R }.

Definition mercToLat (m : R) : R := 2 * atan (exp m) - 1.57079632679.

Definition main (u_wind : vec2 -> vec2) (u : Uniforms) (v_tex_pos pos : vec2)
  : vec2 :=
  let velocity := vmix (u_wind_min u) (u_wind_max u)
                    (lookup_wind u_wind (u_wind_res u) pos) in
  let speed_t := length velocity / Js.max (/ 1000000) (length (u_wind_max u)) in
  let m := Js.mix (u_merc_north u) (u_merc_south u) (vy pos) in
  let lat := mercToLat m in
  let distortion := Js.max 0.05 (cos lat) in
  let offset := vscale (vscale (v2 (vx velocity / distortion) (vy velocity))
                          (u_speed_factor u)) 0.0003 in
  let nextPos := vadd pos offset in
  let oob := Js.step (vx nextPos) 0 + Js.step 1 (vx nextPos)
           + Js.step (vy nextPos) 0 + Js.step 1 (vy nextPos) in
  let outOfBounds := Js.clamp oob 0 1 in
  let seed := vscale (vadd v_tex_pos pos) (u_rand_seed u + 1) in
  let dropByRate := Js.step (1 - u_drop_rate u - speed_t * u_drop_rate_bump u)
                      (rand seed) in
  let drop := Js.max dropByRate outOfBounds in
  let random_pos := v2 (rand (vadds seed 1.3)) (rand (vadds seed 2.1)) in
  let pos := vmixs nextPos random_pos drop in
  vclamp pos 0 1.
End Update002.

(** [src/unnamed/part_003]: positions are wrapped with [fract]. *)
Module Update003.
Record Uniforms := mkU {
  u_wind_res : vec2; u_wind_min : vec2; u_wind_max : vec2;
  u_speed_factor : R; u_rand_seed : R;
  u_drop_rate : R; u_drop_rate_bump : R;
  u_bbox : vec4 }.

(** [u_bbox] as set by [updateParticles]. *)
Definition bbox_uniform (west south east north : R) : vec4 :=
  v4 (west / 360 + 0.5) (south / 180 + 0.5) (east / 360 + 0.5) (north / 180 + 0.5).

Definition main (u_wind : vec2 -> vec2) (u : Uniforms) (v_tex_pos pos : vec2)
  : vec2 :=
  let uv := pos in
  let velocity := vmix (u_wind_min u) (u_wind_max u)
                    (lookup_wind u_wind (u_wind_res u) uv) in
  let speed_t := length velocity / length (u_wind_max u) in
  let distortion :=
    cos (radians (Js.mix (v4y (u_bbox u)) (v4w (u_bbox u)) (vy pos) * 180 - 90)) in
  let offset := vscale (vscale (v2 (vx velocity / distortion) (vy velocity))
                          (u_speed_factor u)) 0.0001 in
  let pos := vfract (vadds (vadd pos offset) 1) in
  let seed := vscale (vadd v_tex_pos pos) (u_rand_seed u) in
  let drop := Js.step (1 - u_drop_rate u - speed_t * u_drop_rate_bump u)
                (rand seed) in
  let random_pos := v2 (rand (vadds seed 1.3)) (rand (vadds seed 2.1)) in
  vmixs pos random_pos drop.
End Update003.

(** A uniform wind texture, the particle on the right edge at mid height,
    and the class defaults ([dropRate = 0.003], [dropRateBump = 0.01]);
    the encoded wind range is [u in [-10,10]], [v in [-1,1]]. *)
Definition edge_wind (_ : vec2) : vec2 := v2 1 (1 / 2).
Definition edge_pos : vec2 := v2 1 (1 / 2).

Definition edge_uniforms003 : Update003.Uniforms :=
  Update003.mkU (v2 360 180) (v2 (-10) (-1)) (v2 10 1) 0.15 0 0.003 0.01
    (Update003.bbox_uniform (-10) (-10) 10 10).

Definition edge_uniforms002 (merc_south merc_north : R) : Update002.Uniforms :=
  Update002.mkU (v2 360 180) (v2 (-10) (-1)) (v2 10 1) 0.8 0 0.003 0.01
    merc_south merc_north.

End Shader.

(* ------------------------------------------------------------------ *)
(** ** Rasterised wind field of the Leaflet layer
    ([src/unnamed/part_006], [buildWindField] and [sampleWindField]).
    The [Float32Array]s are lists indexed by [idx = y * width + x]; the
    nested [for] loops fill them in index order, row by row.  [float32]
    rounding of the stored values is abstracted away. *)
Module WindField.
Import Grid.

Record Bounds := mkBounds { south : R; north : R; west : R; east : R }.

Record WindField := mkWF {
  width : nat; height : nat;
  uField : list R; vField : list R; speedField : list R }.

(** [uArr[i]] and [vArr[i]]. *)
Definition windU (pt : GridPoint) : R := - sin (windDir pt * PI / 180) * windSpeed pt.
Definition windV (pt : GridPoint) : R := - cos (windDir pt * PI / 180) * windSpeed pt.

(** The inner loop over [points], with its [break] on a sample closer
    than 0.1 degree; returns [(totalW, uInterp, vInterp)]. *)
Fixpoint cell_loop (lat0 lon : R) (pts : list GridPoint) (totalW uInterp vInterp : R)
  : R * R * R :=
  match pts with
  | [] => (totalW, uInterp, vInterp)
  | pt :: rest =>
      let dlat := lat0 - lat pt in
      let dlng := lon - lng pt in
      let d2 := dlat * dlat + dlng * dlng in
      if Rlt_dec d2 0.01 then (1, windU pt, windV pt)
      else
        let w := 1 / (d2 * d2) in
        cell_loop lat0 lon rest (totalW + w) (uInterp + windU pt * w)
          (vInterp + windV pt * w)
  end.

(** Grid node [(x, y)]: its coordinates and the interpolated [(u, v)]. *)
Definition node_lon (bounds : Bounds) (width x : nat) : R :=
  west bounds + (INR x / (INR width - 1)) * (east bounds - west bounds).
Definition node_lat (bounds : Bounds) (height y : nat) : R :=
  north bounds - (INR y / (INR height - 1)) * (north bounds - south bounds).

Definition cell (points : list GridPoint) (bounds : Bounds) (width height x y : nat)
  : R * R :=
  let lon := node_lon bounds width x in
  let lat0 := node_lat bounds height y in
  let '(totalW, uInterp, vInterp) := cell_loop lat0 lon points 0 0 0 in
  if Rlt_dec 0 totalW then (uInterp / totalW, vInterp / totalW)
  else (uInterp, vInterp).

Definition raster (height width : nat) (f : nat -> nat -> R) : list R :=
  flat_map (fun y => map (fun x => f x y) (seq 0 width)) (seq 0 height).

(** [Math.round(resolution * 0.6)]. *)
Definition field_height (resolution : nat) : nat :=
  Z.to_nat (Js.round (INR resolution * 0.6)).

Definition buildWindField (points : list GridPoint) (bounds : Bounds)
  (resolution : nat) : WindField :=
  let width := resolution in
  let height := field_height resolution in
  let c := cell points bounds width height in
  mkWF width height
    (raster height width (fun x y => fst (c x y)))
    (raster height width (fun x y => snd (c x y)))
    (raster height width (fun x y =>
       sqrt (fst (c x y) * fst (c x y) + snd (c x y) * snd (c x y)))).

Record Sample := mkSample { su : R; sv : R; sspeed : R }.

(** Indices are clamped into the field, so the reads stay in range for
    a non-empty field; [nth] with default [0] stands for the array read. *)
Definition sampleWindField (field : WindField) (normX normY : R) : Sample :=
  let fx := normX * (INR (width field) - 1) in
  let fy := normY * (INR (height field) - 1) in
  let ix := Js.floor fx in
  let iy := Js.floor fy in
  let dx := fx - IZR ix in
  let dy := fy - IZR iy in
  let w := Z.of_nat (width field) in
  let h := Z.of_nat (height field) in
  let x0 := Z.max 0 (Z.min ix (w - 1)) in
  let x1 := Z.max 0 (Z.min (ix + 1) (w - 1)) in
  let y0 := Z.max 0 (Z.min iy (h - 1)) in
  let y1 := Z.max 0 (Z.min (iy + 1) (h - 1)) in
  let i00 := Z.to_nat (y0 * w + x0) in
  let i10 := Z.to_nat (y0 * w + x1) in
  let i01 := Z.to_nat (y1 * w + x0) in
  let i11 := Z.to_nat (y1 * w + x1) in
  let bil (a : list R) :=
    (1 - dx) * (1 - dy) * nth i00 a 0 + dx * (1 - dy) * nth i10 a 0
    + (1 - dx) * dy * nth i01 a 0 + dx * dy * nth i11 a 0 in
  mkSample (bil (uField field)) (bil (vField field)) (bil (speedField field)).

(** The animation loop's lookup of a geographic point. *)
Definition sampleAt (field : WindField) (bounds : Bounds) (lat0 lng0 : R) : Sample :=
  let normX := (lng0 - west bounds) / (east bounds - west bounds) in
  let normY := (north bounds - lat0) / (north bounds - south bounds) in
  sampleWindField field normX normY.

(** Two samples 1 degree apart on the northern edge of a 119 x 71 degree
    view (node spacing 1 degree at the layer's resolution 120), with
    opposite winds. *)
Definition rt_bounds : Bounds := mkBounds 0 71 0 119.
Definition rt_A : GridPoint := mkGP 71 (1 / 2) 10 0 20 None None None.
Definition rt_B : GridPoint := mkGP 71 (3 / 2) 10 180 20 None None None.
(** A sample on the north-west grid node. *)
Definition rt_C : GridPoint := mkGP 71 0 10 0 20 None None None.

End WindField.

(* ------------------------------------------------------------------ *)
(** ** Grid sample store: the two [fetchGridData] callbacks
    The React state ([points]) and refs ([lastBoundsRef], [retryCountRef],
    [retryTimerRef]) are the fields of a state record; one call of the
    callback is a function from the state and the server's answer to the
    new state.  A pending [setTimeout(() => fetchGridData(true), delay)] is
    recorded as [retryTimer = Some delay]. *)
Module GridStore.
Import Grid.

(** What [await fetch(...)] yields: [res.ok] with the JSON body's
    [points] field ([None] when it is absent), a non-ok status, or a
    thrown network error. *)
Inductive Response :=
| Ok (points : option (list GridPoint))
| NotOk (status : Z)
| Throws.

(** [data.points || []]. *)
Definition points_or_empty (p : option (list GridPoint)) : list GridPoint :=
  match p with Some l => l | None => [] end.

(** [src/client/src/components/wind-layer.tsx]. *)
Record SimpleState := mkSS { spoints : list GridPoint; slastBounds : string }.

Definition fetchGridData_simple (boundsKey : string) (resp : Response)
  (st : SimpleState) : SimpleState :=
  if String.eqb boundsKey (slastBounds st) then st
  else
    let st := mkSS (spoints st) boundsKey in
    match resp with
    | Ok data => mkSS (points_or_empty data) (slastBounds st)
    | NotOk _ => st
    | Throws => st
    end.

(** [src/unnamed/part_006]: retries with exponential back-off. *)
Record RetryState := mkRS {
  points : list GridPoint; retryCount : nat;
  lastBounds : string; retryTimer : option R }.

(** [retryCountRef.current++], the delay
    [Math.min(5000 * Math.pow(2, retryCount - 1), 30000)],
    [lastBoundsRef.current = ""] and the [setTimeout]. *)
Definition scheduleRetry (st : RetryState) : RetryState :=
  let rc := S (retryCount st) in
  let delay := Rmin (5000 * 2 ^ (rc - 1)) 30000 in
  mkRS (points st) rc ""%string (Some delay).

Definition fetchGridData_retry (isRetry : bool) (boundsKey : string)
  (resp : Response) (st : RetryState) : RetryState :=
  if negb isRetry && String.eqb boundsKey (lastBounds st) then st
  else
    let st := mkRS (points st) (retryCount st) boundsKey (retryTimer st) in
    match resp with
    | Ok data =>
        let pts := points_or_empty data in
        if Nat.ltb 0 (List.length pts) then mkRS pts 0 (lastBounds st) (retryTimer st)
        else if Nat.ltb (retryCount st) 3 then scheduleRetry st
        else st
    | NotOk status =>
        if (status =? 429)%Z && Nat.ltb (retryCount st) 3 then scheduleRetry st
        else mkRS (points st) (retryCount st) ""%string (retryTimer st)
    | Throws => mkRS (points st) (retryCount st) ""%string (retryTimer st)
    end.

(** A first call for [boundsKey], then one retry per pending timer, the
    server answering with the successive [resps]; the run stops when no
    retry is pending or no answer is left. *)
Fixpoint run_retry (boundsKey : string) (resps : list Response) (isRetry : bool)
  (st : RetryState) : RetryState :=
  match resps with
  | [] => st
  | r :: rest =>
      let st1 := fetchGridData_retry isRetry boundsKey r
                   (mkRS (points st) (retryCount st) (lastBounds st) None) in
      match retryTimer st1 with
      | Some _ => run_retry boundsKey rest true st1
      | None => st1
      end
  end.

Definition key0 : string := "0.0,10.0,0.0,10.0"%string.
Definition empty_response : Response := Ok (Some []).

End GridStore.

(* ------------------------------------------------------------------ *)
(** ** The [GET /api/grid-weather] endpoint
    ([src/unnamed/part_012] with cache and fallbacks, [src/unnamed/part_013]
    without).  A query parameter is [Some] of its [parseFloat] value, or
    [None] for [NaN].  The upstream answer of the two [open-meteo] calls is
    an input of the handler; [UpThrows] stands for a rejected [fetch] or a
    failing [.json()]. *)
Module GridWeather.
Import Grid.

Record Current := mkCurrent {
  wind_speed_10m : option R; wind_direction_10m : option R;
  temperature_2m : option R }.
Record WeatherEntry := mkWeatherEntry {
  latitude : R; longitude : R; current : option Current }.
Record MarineCurrent := mkMarineCurrent {
  wave_height : option R; wave_direction : option R; wave_period : option R }.
Record MarineEntry := mkMarineEntry { mcurrent : option MarineCurrent }.

(** [weatherData]: an error object ([{error: true, reason}]), an array
    (several coordinates) or a single object (one coordinate). *)
Inductive WeatherData :=
| WeatherError
| WeatherArray (l : list WeatherEntry)
| WeatherObject (e : WeatherEntry).
Inductive MarineData :=
| MarineArray (l : list MarineEntry)
| MarineObject (e : MarineEntry).

Inductive Upstream :=
| Answer (weather : WeatherData) (marine : MarineData)
| UpThrows.

(** The HTTP reply: [res.json({points})] or [res.status(code).json({error})]. *)
Inductive Reply :=
| JsonPoints (points : list GridPoint)
| ErrorStatus (code : Z) (error : string).

(** [Array.isArray(d) ? d : [d]]; an error object has no [current] field,
    so it yields no point and is left out. *)
Definition weatherArr (d : WeatherData) : list WeatherEntry :=
  match d with
  | WeatherError => []
  | WeatherArray l => l
  | WeatherObject e => [e]
  end.
Definition marineArr (d : MarineData) : list MarineEntry :=
  match d with MarineArray l => l | MarineObject e => [e] end.

(** [x || 0] on a number that may be missing. *)
Definition or_zero (o : option R) : R := match o with Some v => v | None => 0 end.

(** [md?.current?.f ?? null]. *)
Definition marine_field (f : MarineCurrent -> option R) (md : option MarineEntry)
  : option R :=
  match md with
  | Some m => match mcurrent m with Some c => f c | None => None end
  | None => None
  end.

(** The loop over [weatherArr], reading [marineArr[i]] beside it. *)
Fixpoint build_points (ws : list WeatherEntry) (ms : list MarineEntry)
  : list GridPoint :=
  match ws with
  | [] => []
  | wd :: ws' =>
      let md := hd_error ms in
      let rest := build_points ws' (tl ms) in
      match current wd with
      | Some c =>
          mkGP (latitude wd) (longitude wd)
            (or_zero (wind_speed_10m c)) (or_zero (wind_direction_10m c))
            (or_zero (temperature_2m c))
            (marine_field wave_height md) (marine_field wave_direction md)
            (marine_field wave_period md) :: rest
      | None => rest
      end
  end.

(** The [for (let v = start; v <= lim; v += step)] loops.  [body] is one
    round, [None] when it does not end (an inner loop); the whole loop is
    [None] when it does not end.  [for_iter] runs at most [rounds] rounds
    and stops early once [v > lim]. *)
Fixpoint for_iter {A : Type} (rounds : nat) (v step lim : R)
    (body : R -> option (list A)) : option (list A) :=
  match rounds with
  | O => Some []
  | S r =>
      if Rle_dec v lim then
        match body v with
        | None => None
        | Some l =>
            match for_iter r (v + step) step lim body with
            | None => None
            | Some l' => Some (l ++ l')
            end
        end
      else Some []
  end.

(** Entered with [start <= lim], the loop runs the rounds
    [v = start + k * step <= lim]: for [step > 0] these are the
    [floor((lim - start) / step) + 1] first ones, after which [v > lim]
    ([for_range_step] below checks that this is the loop's own
    unfolding); for [step <= 0] the condition stays true forever and the
    loop never ends. *)
Definition for_range {A : Type} (v step lim : R) (body : R -> option (list A))
  : option (list A) :=
  if Rle_dec v lim then
    if Rle_dec step 0 then None
    else for_iter (S (Z.to_nat (Js.floor ((lim - v) / step)))) v step lim body
  else Some [].

(** [Math.round(v * scale) / scale]. *)
Definition round_to (scale v : R) : R := IZR (Js.round (v * scale)) / scale.

(** The padded grid bounds [(gs, gn, gw, ge)] (at least 12 degrees wide). *)
Definition grid_bounds (s n w e : R) : R * R * R * R :=
  let latSpan := n - s in
  let lngSpan := e - w in
  let minSpan := 12 in
  let padLat := Js.max 0 ((minSpan - latSpan) / 2) in
  let padLng := Js.max 0 ((minSpan - lngSpan) / 2) in
  let gs := Js.max (-90) (s - padLat) in
  let gn := Js.min 90 (n + padLat) in
  let gw := w - padLng in
  let ge := e + padLng in
  (gs, gn, gw, ge).

(** The padded latitude band [[gs, gn]] has a positive height.  When it
    is a single line ([gs = gn], for instance [south = 90] and
    [north >= 102]) [latStep] is 0 and the grid loop never ends. *)
Definition lat_band_open (s n : R) : Prop :=
  let '(gs, gn, _, _) := grid_bounds s n 0 0 in gs < gn.

(** [pairLats] and [pairLngs], zipped: a [latDiv x lngDiv] grid of cell
    centres rounded with [scale], truncated to [maxPairs]; [None] when
    the loops do not end. *)
Definition grid_pairs (latDiv lngDiv scale : R) (maxPairs : nat) (s n w e : R)
  : option (list (R * R)) :=
  let '(gs, gn, gw, ge) := grid_bounds s n w e in
  let latStep := (gn - gs) / latDiv in
  let lngStep := (ge - gw) / lngDiv in
  match for_range (gs + latStep / 2) latStep gn (fun lat =>
          for_range (gw + lngStep / 2) lngStep ge (fun lng =>
            Some [(round_to scale lat, round_to scale lng)])) with
  | Some l => Some (firstn maxPairs l)
  | None => None
  end.

(** [src/unnamed/part_013]; [None]: the request is never answered. *)
Definition handler_013 (south north west east : option R) (up : Upstream)
  : option Reply :=
  match south, north, west, east with
  | Some s, Some n, Some w, Some e =>
      match grid_pairs 6 8 100 50 s n w e with
      | None => None
      | Some [] => Some (JsonPoints [])
      | Some (_ :: _) =>
          match up with
          | UpThrows => Some (ErrorStatus 500 "Failed to fetch grid data")
          | Answer wd md => Some (JsonPoints (build_points (weatherArr wd) (marineArr md)))
          end
      end
  | _, _, _, _ => Some (ErrorStatus 400 "Invalid bounds")
  end.

(** JavaScript's [%]: the remainder of the division truncated toward 0. *)
Definition trunc (q : R) : Z :=
  if Rle_dec 0 q then Js.floor q else (- Js.floor (- q))%Z.
Definition js_mod (x m : R) : R := x - m * IZR (trunc (x / m)).

(** [v ? f(v) : null] on a number or [null]: [0] is falsy. *)
Definition truthy_map (f : R -> R) (o : option R) : option R :=
  match o with
  | Some v => if Req_dec_T v 0 then None else Some (f v)
  | None => None
  end.

(** One point of [generateSyntheticWindData]; [t = Date.now() / 3600000]. *)
Definition synth_point (t lat lng : R) : GridPoint :=
  let latRad := lat * PI / 180 in
  let tradeWindBase := 15 + 10 * cos (latRad * 2) in
  let dirBase := if Rlt_dec 0 lat then 225 + lat * 0.5 else 315 - lat * 0.5 in
  let variation := sin (lng * 0.05 + t) * 8 + cos (lat * 0.08 + t * 0.7) * 5 in
  let dirVariation := sin (lat * 0.1 + lng * 0.05 + t * 0.3) * 30 in
  let windSpeed := Js.max 2 (Js.min 45 (tradeWindBase + variation)) in
  let windDir := js_mod (js_mod (dirBase + dirVariation) 360 + 360) 360 in
  let isCoastal := Rlt_dec (Rabs lat) 60 in
  let waveHeight := if isCoastal
    then Some (Js.max 0.2 (windSpeed * 0.08 + sin (lat * 0.15 + t) * 0.5)) else None in
  let waveDir := if isCoastal
    then Some (js_mod (windDir + 10 + sin (lng * 0.1) * 15) 360) else None in
  let wavePeriod := if isCoastal
    then Some (Js.max 4 (6 + windSpeed * 0.15 + sin (lat * 0.2) * 2)) else None in
  mkGP (round_to 10 lat) (round_to 10 lng) (round_to 10 windSpeed)
    (IZR (Js.round windDir))
    (round_to 10 (25 - Rabs lat * 0.4 + sin (lng * 0.05) * 3))
    (truthy_map (round_to 10) waveHeight)
    (truthy_map (fun v => IZR (Js.round v)) waveDir)
    (truthy_map (round_to 10) wavePeriod).

(** [None] when the loops do not end ([south = north], or [west = east]
    with [south < north]). *)
Definition generateSyntheticWindData (s n w e now : R) : option (list GridPoint) :=
  let latStep := (n - s) / 5 in
  let lngStep := (e - w) / 7 in
  let t := now / 3600000 in
  for_range (s + latStep / 2) latStep n (fun lat =>
    for_range (w + lngStep / 2) lngStep e (fun lng =>
      Some [synth_point t lat lng])).

(** Module-level state of [part_012]: the cache entry of a key
    ([gridWeatherCache.get]), [lastGoodGridData] and [gridRateLimitUntil]. *)
Record Server := mkServer {
  gridWeatherCache : list (R * R) -> option (list GridPoint * R);
  lastGoodGridData : option (list GridPoint * R);
  gridRateLimitUntil : R }.

Definition GRID_CACHE_TTL : R := 10 * 60 * 1000.

(** An upstream answer for one coordinate: a wind direction of 360 and a
    marine record without [wave_height]. *)
Definition north_wind_weather : WeatherEntry :=
  mkWeatherEntry 15 35 (Some (mkCurrent (Some 5) (Some 360) (Some 20))).
Definition partial_marine : MarineEntry :=
  mkMarineEntry (Some (mkMarineCurrent None (Some 90) (Some 8))).

(** [parseFloat(q) || d]. *)
Definition or_default (o : option R) (d : R) : R :=
  match o with
  | Some v => if Req_dec_T v 0 then d else v
  | None => d
  end.

Definition pair_eq_dec (p q : R * R) : {p = q} + {p <> q}.
Proof.
  destruct p as [a b], q as [c d].
  destruct (Req_dec_T a c) as [->|H1]; [|right; congruence].
  destruct (Req_dec_T b d) as [->|H2]; [left; reflexivity|right; congruence].
Defined.

(** [gridWeatherCache.set(cacheKey, ...)]; the key [latStr|lngStr] is
    determined by the rounded pairs.  The eviction of old entries beyond
    100 is not modelled: it only turns later hits into misses. *)
Definition cache_set (c : list (R * R) -> option (list GridPoint * R))
  (key : list (R * R)) (entry : list GridPoint * R) :=
  fun k => if list_eq_dec pair_eq_dec k key then Some entry else c k.

(** [res.json(generateSyntheticWindData(...))], which may never answer. *)
Definition synthetic_reply (s n w e now : R) (st : Server) : option (Reply * Server) :=
  match generateSyntheticWindData s n w e now with
  | Some pts => Some (JsonPoints pts, st)
  | None => None
  end.

(** [src/unnamed/part_012]; [now] is [Date.now()]; [None]: the request
    is never answered. *)
Definition handler_012 (st : Server) (now : R) (south north west east : option R)
  (up : Upstream) : option (Reply * Server) :=
  match south, north, west, east with
  | Some s, Some n, Some w, Some e =>
      let '(gs, gn, gw, ge) := grid_bounds s n w e in
      match grid_pairs 5 7 10 35 s n w e with
      | None => None
      | Some [] => Some (JsonPoints [], st)
      | Some pairs =>
          let cached := gridWeatherCache st pairs in
          (* [if (cached) ...; if (lastGoodGridData) ...; synthetic] *)
          let fallback (st' : Server) :=
            match cached with
            | Some (d, _) => Some (JsonPoints d, st')
            | None =>
                match lastGoodGridData st' with
                | Some (d, _) => Some (JsonPoints d, st')
                | None => synthetic_reply gs gn gw ge now st'
                end
            end in
          (* the [catch] block *)
          let on_error (st' : Server) :=
            match lastGoodGridData st' with
            | Some (d, _) => Some (JsonPoints d, st')
            | None =>
                let s2 := or_default south (-30) in
                let n2 := or_default north 50 in
                let w2 := or_default west (-130) in
                let e2 := or_default east (-60) in
                synthetic_reply s2 n2 w2 e2 now st'
            end in
          (* past the cache check: rate limit, upstream call *)
          let fetch_upstream :=
            if Rlt_dec now (gridRateLimitUntil st) then fallback st
            else match up with
                 | UpThrows => on_error st
                 | Answer WeatherError _ =>
                     fallback (mkServer (gridWeatherCache st) (lastGoodGridData st)
                                 (now + 60000))
                 | Answer wd md =>
                     let pts := build_points (weatherArr wd) (marineArr md) in
                     Some (JsonPoints pts,
                       mkServer (cache_set (gridWeatherCache st) pairs (pts, now))
                         (Some (pts, now)) (gridRateLimitUntil st))
                 end in
          match cached with
          | Some (d, ts) =>
              if Rlt_dec (now - ts) GRID_CACHE_TTL then Some (JsonPoints d, st)
              else fetch_upstream
          | None => fetch_upstream
          end
      end
  | _, _, _, _ => Some (ErrorStatus 400 "Invalid bounds", st)
  end.

End GridWeather.

(* ------------------------------------------------------------------ *)
(** ** The string hash of the wave-ring animation ([seedHash] of
    [src/unnamed/part_006] and of [wind-layer.tsx]).  The hashed string
    [`${lat.toFixed(4)},${lng.toFixed(4)}`] is given by its UTF-16 code
    units; [toFixed] itself is not modelled. *)
Module Hash.
Open Scope Z_scope.

(** ECMAScript [ToInt32]: the value modulo [2^32] in [[-2^31, 2^31)]. *)
Definition toInt32 (z : Z) : Z := (z + 2 ^ 31) mod 2 ^ 32 - 2 ^ 31.

(** [h << 5] on a number: [ToInt32(h)] shifted, the result read as int32. *)
Definition shl5 (h : Z) : Z := toInt32 (Z.shiftl (toInt32 h) 5).

(** The loop [h = ((h << 5) - h + s.charCodeAt(i)) | 0]; the sum before
    [| 0] stays far below [2^53], so it is exact. *)
Fixpoint seedHash_loop (codes : list Z) (h : Z) : Z :=
  match codes with
  | [] => h
  | c :: rest => seedHash_loop rest (toInt32 (shl5 h - h + c))
  end.

Definition seedHash_string (codes : list Z) : Z := seedHash_loop codes 0.

(** The polynomial [sum c_i * 31^(n-1-i)] in Horner form. *)
Fixpoint poly31 (codes : list Z) (acc : Z) : Z :=
  match codes with
  | [] => acc
  | c :: rest => poly31 rest (31 * acc + c)
  end.

End Hash.

(* ------------------------------------------------------------------ *)
(** ** Web-Mercator helpers of the WebGL layer ([src/unnamed/part_002]). *)
Module Mercator.

Definition mercY (latDeg : R) : R :=
  let lat := Js.degToRad latDeg in
  let clamped := Js.max (-85.05112878) (Js.min 85.05112878 latDeg) in
  let latC := Js.degToRad clamped in
  ln (tan (PI / 4 + latC / 2)).

Definition invMercY (m : R) : R := (2 * atan (exp m) - PI / 2) * (180 / PI).

End Mercator.

(* ------------------------------------------------------------------ *)
(** ** The wind texture of the WebGL layer ([src/unnamed/part_002],
    [encodeWindToTexture]).  The [Uint8Array] is a list of bytes in index
    order; the value ranges start at [Infinity] / [-Infinity], written
    [None] here.  With no sample they stay infinite and the encoding is
    outside the model ([None]). *)
Module WindTexture.
Import Grid Mercator.

Record WindData := mkWD {
  uMin : R; uMax : R; vMin : R; vMax : R;
  twidth : nat; theight : nat; pixels : list Z;
  mercSouth : R; mercNorth : R;
  tsouth : R; tnorth : R; twest : R; teast : R }.

(** [uArr[i]] and [vArr[i]]. *)
Definition tex_u (pt : GridPoint) : R :=
  - sin (Js.degToRad (windDir pt)) * (windSpeed pt * 0.5399).
Definition tex_v (pt : GridPoint) : R :=
  - cos (Js.degToRad (windDir pt)) * (windSpeed pt * 0.5399).

(** [if (x < m) m = x] and [if (x > m) m = x] from [Infinity] and
    [-Infinity]; the four updates of the range loop are independent, one
    fold each. *)
Definition upd_min (m : option R) (x : R) : option R :=
  match m with
  | None => Some x
  | Some m0 => if Rlt_dec x m0 then Some x else Some m0
  end.
Definition upd_max (m : option R) (x : R) : option R :=
  match m with
  | None => Some x
  | Some m0 => if Rlt_dec m0 x then Some x else Some m0
  end.

(** [if (lo === hi) { lo -= 1; hi += 1; }]. *)
Definition widen (lo hi : R) : R * R :=
  if Req_dec_T lo hi then (lo - 1, hi + 1) else (lo, hi).

(** The loop over [gridPoints] of one texel, weights [1/d2], [break] on
    a sample closer than 0.1 degree; returns [(totalW, uInterp, vInterp)]. *)
Fixpoint tex_loop (lat0 lon : R) (pts : list GridPoint) (totalW uInterp vInterp : R)
  : R * R * R :=
  match pts with
  | [] => (totalW, uInterp, vInterp)
  | pt :: rest =>
      let dlat := lat0 - lat pt in
      let dlng := lon - lng pt in
      let d2 := dlat * dlat + dlng * dlng in
      if Rlt_dec d2 0.01 then (1, tex_u pt, tex_v pt)
      else
        let w := 1 / d2 in
        tex_loop lat0 lon rest (totalW + w) (uInterp + tex_u pt * w)
          (vInterp + tex_v pt * w)
  end.

(** The interpolated [(uInterp, vInterp)] of texel [(tx, ty)]. *)
Definition texel_uv (gridPoints : list GridPoint) (west east mercNorth mercSouth : R)
  (texWidth texHeight tx ty : nat) : R * R :=
  let tY := if Nat.leb texHeight 1 then 0 else INR ty / (INR texHeight - 1) in
  let m := mercNorth + (mercSouth - mercNorth) * tY in
  let lat0 := invMercY m in
  let tX := if Nat.leb texWidth 1 then 0 else INR tx / (INR texWidth - 1) in
  let lon := west + tX * (east - west) in
  let '(totalW, uInterp, vInterp) := tex_loop lat0 lon gridPoints 0 0 0 in
  if Rlt_dec 0 totalW then (uInterp / totalW, vInterp / totalW)
  else (uInterp, vInterp).

(** [Math.round(Math.max(0, Math.min(1, norm)) * 255)]. *)
Definition byte_of (norm : R) : Z := Js.round (Js.max 0 (Js.min 1 norm) * 255).

Definition encodeWindToTexture (gridPoints : list GridPoint)
  (south north west east : R) (texWidth texHeight : nat) : option WindData :=
  let uArr := map tex_u gridPoints in
  let vArr := map tex_v gridPoints in
  match fold_left upd_min uArr None, fold_left upd_max uArr None,
        fold_left upd_min vArr None, fold_left upd_max vArr None with
  | Some uMin0, Some uMax0, Some vMin0, Some vMax0 =>
      let '(uMin, uMax) := widen uMin0 uMax0 in
      let '(vMin, vMax) := widen vMin0 vMax0 in
      let mercNorth := mercY north in
      let mercSouth := mercY south in
      let texel (tx ty : nat) :=
        let '(uInterp, vInterp) :=
          texel_uv gridPoints west east mercNorth mercSouth texWidth texHeight tx ty in
        let uNorm := (uInterp - uMin) / (uMax - uMin) in
        let vNorm := (vInterp - vMin) / (vMax - vMin) in
        [byte_of uNorm; byte_of vNorm; 0%Z; 255%Z] in
      let pixels :=
        flat_map (fun ty => flat_map (fun tx => texel tx ty) (seq 0 texWidth))
          (seq 0 texHeight) in
      Some (mkWD uMin uMax vMin vMax texWidth texHeight pixels
              mercSouth mercNorth south north west east)
  | _, _, _, _ => None
  end.

End WindTexture.

(* ------------------------------------------------------------------ *)
(** ** The particle state texture of [part_002]: [main] of the update
    shader writes [vec4(fract(pos * 255.0), floor(pos * 255.0) / 255.0)]
    and reads back [vec2(color.r / 255.0 + color.b, color.g / 255.0 +
    color.a)].  Between the two, the RGBA8 framebuffer stores each
    channel as the byte [round(clamp(c, 0, 1) * 255)] and samples it as
    [byte / 255] (the normalized fixed-point conversion of OpenGL ES). *)
Module StatePacking.
Import Shader.

Definition encode_pos (pos : vec2) : vec4 :=
  let f := vfract (vscale pos 255) in
  let g := vfloor (vscale pos 255) in
  v4 (vx f) (vy f) (vx g / 255) (vy g / 255).

Definition decode_pos (color : vec4) : vec2 :=
  v2 (v4x color / 255 + v4z color) (v4y color / 255 + v4w color).

Definition unorm8 (c : R) : R := IZR (Js.round (Js.clamp c 0 1 * 255)) / 255.

Definition store (color : vec4) : vec4 :=
  v4 (unorm8 (v4x color)) (unorm8 (v4y color)) (unorm8 (v4z color)) (unorm8 (v4w color)).

End StatePacking.

(* ================================================================== *)
(** * Proofs *)

(** Decide the real comparisons of a concrete computation; the branch
    that contradicts the arithmetic facts is closed by [lra]. *)
Ltac rdec :=
  repeat match goal with
  | |- context [Rlt_dec ?a ?b] =>
      destruct (Rlt_dec a b); try (exfalso; lra)
  | |- context [Rle_dec ?a ?b] =>
      destruct (Rle_dec a b); try (exfalso; lra)
  | |- context [Req_dec_T ?a ?b] =>
      destruct (Req_dec_T a b); try (exfalso; lra)
  end.

Module IdwFacts.
Import Idw.

(** Samples beyond the radius leave the accumulators untouched. *)
Lemma idw_loop_far (x y m2 : R) (sps : list ScreenPoint) (tw u v s : R) :
  (forall sp, In sp sps -> m2 < distSq x y sp) ->
  idw_loop x y m2 sps tw u v s = idw_loop x y m2 [] tw u v s.
Proof.
  induction sps as [|sp rest IH]; intros Hfar; [reflexivity|].
  simpl. destruct (Rlt_dec m2 (distSq x y sp)) as [_|Hn].
  - apply IH. intros q Hq. apply Hfar. right. exact Hq.
  - exfalso. apply Hn. apply Hfar. left. reflexivity.
Qed.

Lemma dist_gt_sq (d m : R) :
  0 <= m -> 0 <= d -> m < sqrt d -> m * m < d.
Proof.
  intros Hm Hd Hlt.
  pose proof (sqrt_sqrt d Hd) as Hs.
  pose proof (sqrt_pos d).
  nra.
Qed.

Lemma distSq_nonneg (x y : R) (sp : ScreenPoint) : 0 <= distSq x y sp.
Proof.
  unfold distSq.
  pose proof (Rle_0_sqr (x - sx sp)). pose proof (Rle_0_sqr (y - sy sp)).
  unfold Rsqr in *. lra.
Qed.

(** The first sample within the exact-match distance, with only
    out-of-radius or farther samples before it, is returned as is. *)
Lemma idw_loop_exact (x y m2 : R) (pre post : list ScreenPoint)
    (sp : ScreenPoint) (tw u v s : R) :
  (forall q, In q pre -> 1 <= distSq x y q \/ m2 < distSq x y q) ->
  distSq x y sp < 1 -> distSq x y sp <= m2 ->
  idw_loop x y m2 (pre ++ sp :: post) tw u v s
    = Some (mkWind (su sp) (sv sp) (sspeed sp)).
Proof.
  revert tw u v s.
  induction pre as [|q rest IH]; intros tw u v s Hpre H1 Hm.
  - simpl. destruct (Rlt_dec m2 (distSq x y sp)); [lra|].
    destruct (Rlt_dec (distSq x y sp) 1); [reflexivity|lra].
  - simpl. destruct (Rlt_dec m2 (distSq x y q)).
    + apply IH; auto. intros q' Hq'. apply Hpre. right. exact Hq'.
    + destruct (Rlt_dec (distSq x y q) 1) as [Hq1|Hq1].
      * exfalso. destruct (Hpre q (or_introl eq_refl)); lra.
      * apply IH; auto. intros q' Hq'. apply Hpre. right. exact Hq'.
Qed.

(** Claim C1.  A query whose distance to every sample exceeds the configured
    (non-negative) interpolation radius gets "no data" ([None]): the
    function never answers with a numeric vector there. *)
Theorem interpolateWind_beyond_radius_no_data (x y maxDist : R)
    (screenPoints : list ScreenPoint) :
  0 <= maxDist ->
  (forall sp, In sp screenPoints -> maxDist < sqrt (distSq x y sp)) ->
  interpolateWind x y screenPoints maxDist = None.
Proof.
  intros Hm Hfar. destruct screenPoints as [|sp0 rest]; [reflexivity|].
  unfold interpolateWind.
  rewrite idw_loop_far.
  - simpl. destruct (Req_dec_T 0 0) as [_|Hn]; [reflexivity|].
    exfalso. apply Hn. reflexivity.
  - intros q Hq. apply dist_gt_sq; auto using distSq_nonneg.
Qed.

Lemma sqrt_square_gt (m d : R) : 0 <= m -> 0 <= d -> m < d -> m < sqrt (d * d).
Proof.
  intros Hm Hd Hlt. rewrite sqrt_square; lra.
Qed.

Lemma interpolateWind_beyond_radius_no_data_witness :
  (0 <= 2000 /\
   (forall sp, In sp [mkSP 3000 0 1 1 1] -> 2000 < sqrt (distSq 0 0 sp))) /\
  interpolateWind 0 0 [mkSP 3000 0 1 1 1] 2000 = None.
Proof.
  assert (Hm : 0 <= 2000) by lra.
  assert (Hf : forall sp, In sp [mkSP 3000 0 1 1 1] -> 2000 < sqrt (distSq 0 0 sp)).
  { intros sp [<-|[]]. unfold distSq; simpl.
    replace ((0 - 3000) * (0 - 3000) + (0 - 0) * (0 - 0)) with (3000 * 3000) by ring.
    apply sqrt_square_gt; lra. }
  split; [split; [exact Hm | exact Hf]|].
  apply (interpolateWind_beyond_radius_no_data 0 0 2000 [mkSP 3000 0 1 1 1] Hm Hf).
Defined.

(** Claim C5 (amended).  A query within the exact-match distance
    ([distSq < 1]) of a sample inside the radius gets exactly the value of
    the FIRST such sample in list order: samples listed before it are
    either outside the radius or not within the exact-match distance. *)
Theorem interpolateWind_exact_first_match (x y maxDist : R)
    (pre post : list ScreenPoint) (sp : ScreenPoint) :
  (forall q, In q pre ->
     1 <= distSq x y q \/ maxDist * maxDist < distSq x y q) ->
  distSq x y sp < 1 -> distSq x y sp <= maxDist * maxDist ->
  interpolateWind x y (pre ++ sp :: post) maxDist
    = Some (mkWind (su sp) (sv sp) (sspeed sp)).
Proof.
  intros Hpre H1 Hm. unfold interpolateWind.
  destruct (pre ++ sp :: post) eqn:E; [destruct pre; discriminate|].
  rewrite <- E. apply idw_loop_exact; auto.
Qed.

Lemma interpolateWind_exact_first_match_witness :
  ((forall q, In q [] -> 1 <= distSq 0 0 q \/ 2000 * 2000 < distSq 0 0 q) /\
   distSq 0 0 scenario_sp1 < 1 /\ distSq 0 0 scenario_sp1 <= 2000 * 2000) /\
  interpolateWind 0 0 [scenario_sp1; scenario_sp2; scenario_sp3] 2000
    = Some (mkWind (su scenario_sp1) (sv scenario_sp1) (sspeed scenario_sp1)).
Proof.
  assert (Hp : forall q, In q [] -> 1 <= distSq 0 0 q \/ 2000 * 2000 < distSq 0 0 q)
    by (intros q []).
  assert (H1 : distSq 0 0 scenario_sp1 < 1)
    by (unfold distSq, scenario_sp1, screenPointOf; simpl; lra).
  assert (H2 : distSq 0 0 scenario_sp1 <= 2000 * 2000)
    by (unfold distSq, scenario_sp1, screenPointOf; simpl; lra).
  split; [split; [exact Hp | split; [exact H1 | exact H2]]|].
  exact (interpolateWind_exact_first_match 0 0 2000 [] [scenario_sp2; scenario_sp3]
           scenario_sp1 Hp H1 H2).
Defined.

(** Claim C5 (counterexample).  The query (1/2, 0) coincides with the second
    sample, yet the value of the first sample (within distance 1/2) is
    returned, not the value of the sample it coincides with. *)
Lemma interpolateWind_coincident_second_sample :
  distSq (1/2) 0 (mkSP (1/2) 0 2 0 2) = 0 /\
  interpolateWind (1/2) 0 [mkSP 0 0 1 0 1; mkSP (1/2) 0 2 0 2] 2000
    = Some (mkWind 1 0 1) /\
  Some (mkWind 1 0 1) <> Some (mkWind 2 0 2).
Proof.
  split; [unfold distSq; simpl; ring|].
  split.
  - unfold interpolateWind, idw_loop, distSq; simpl. rdec. reflexivity.
  - intros H. injection H. lra.
Qed.

End IdwFacts.

Module JsFacts.

Lemma floor_spec (x : R) : IZR (Js.floor x) <= x < IZR (Js.floor x) + 1.
Proof.
  unfold Js.floor. destruct (base_Int_part x) as [H1 H2]. lra.
Qed.

Lemma floor_unique (x : R) (z : Z) :
  IZR z <= x < IZR z + 1 -> Js.floor x = z.
Proof.
  intros [H1 H2]. unfold Js.floor, Int_part.
  rewrite <- (tech_up x (z + 1)); [lia| |]; rewrite plus_IZR; simpl; lra.
Qed.

Lemma floor_mono (x y : R) : x <= y -> (Js.floor x <= Js.floor y)%Z.
Proof.
  intros Hxy. pose proof (floor_spec x). pose proof (floor_spec y).
  assert (IZR (Js.floor x) < IZR (Js.floor y) + 1) by lra.
  rewrite <- plus_IZR in H1. apply lt_IZR in H1. lia.
Qed.

Lemma round_mono (x y : R) : x <= y -> IZR (Js.round x) <= IZR (Js.round y).
Proof.
  intros H. apply IZR_le. apply floor_mono. lra.
Qed.

Lemma round_diff (x y : R) :
  Rabs (IZR (Js.round x) - IZR (Js.round y)) <= Rabs (x - y) + 1.
Proof.
  unfold Js.round.
  pose proof (floor_spec (x + / 2)). pose proof (floor_spec (y + / 2)).
  unfold Rabs. destruct (Rcase_abs _); destruct (Rcase_abs _); lra.
Qed.

Lemma max_diff (c a b : R) : Rabs (Js.max c a - Js.max c b) <= Rabs (a - b).
Proof.
  unfold Js.max, Rmax.
  destruct (Rle_dec c a); destruct (Rle_dec c b);
    unfold Rabs; repeat destruct (Rcase_abs _); lra.
Qed.

End JsFacts.

Module LodFacts.
Import Lod JsFacts.

Ltac minmax :=
  unfold Js.max, Js.min, Rmax, Rmin in *;
  repeat match goal with
  | |- context [Rle_dec ?a ?b] => destruct (Rle_dec a b)
  | H : context [Rle_dec ?a ?b] |- _ => destruct (Rle_dec a b)
  end.

Lemma particleCount_eq (zoom : R) :
  particleCount (getZoomParams zoom)
    = Js.max 150 (IZR (Js.round (1500 * (1 - lod_ease zoom * 0.9)))).
Proof. reflexivity. Qed.

Lemma interpRadius_eq (zoom : R) :
  interpRadius (getZoomParams zoom)
    = 2000 + IZR (Js.round (lod_delta zoom * lod_delta zoom * 500)).
Proof. reflexivity. Qed.

Lemma delta_range (z : R) : 0 <= lod_delta z <= 14.
Proof. unfold lod_delta, BASE_ZOOM. minmax; lra. Qed.

Lemma delta_mono (z1 z2 : R) : z1 <= z2 -> lod_delta z1 <= lod_delta z2.
Proof. unfold lod_delta, BASE_ZOOM. intros. minmax; lra. Qed.

Lemma delta_lip (z1 z2 : R) :
  Rabs (lod_delta z1 - lod_delta z2) <= Rabs (z1 - z2).
Proof.
  unfold lod_delta, BASE_ZOOM. minmax; unfold Rabs;
    repeat destruct (Rcase_abs _); lra.
Qed.

Lemma t_range (z : R) : 0 <= lod_t z <= 1.
Proof. unfold lod_t. pose proof (delta_range z). minmax; lra. Qed.

Lemma t_mono (z1 z2 : R) : z1 <= z2 -> lod_t z1 <= lod_t z2.
Proof.
  intros H. pose proof (delta_mono z1 z2 H). unfold lod_t. minmax; lra.
Qed.

Lemma t_lip (z1 z2 : R) : Rabs (lod_t z1 - lod_t z2) <= Rabs (z1 - z2) / 6.
Proof.
  pose proof (delta_lip z1 z2). unfold lod_t.
  minmax; unfold Rabs in *; repeat destruct (Rcase_abs _); lra.
Qed.

Lemma ease_t (z : R) : lod_ease z = lod_t z * lod_t z.
Proof. reflexivity. Qed.

Lemma ease_mono (z1 z2 : R) : z1 <= z2 -> lod_ease z1 <= lod_ease z2.
Proof.
  intros H. rewrite !ease_t. pose proof (t_mono z1 z2 H).
  pose proof (t_range z1). nra.
Qed.

Lemma ease_lip (z1 z2 : R) :
  Rabs (lod_ease z1 - lod_ease z2) <= Rabs (z1 - z2) / 3.
Proof.
  rewrite !ease_t. pose proof (t_lip z1 z2).
  pose proof (t_range z1). pose proof (t_range z2).
  replace (lod_t z1 * lod_t z1 - lod_t z2 * lod_t z2)
    with ((lod_t z1 - lod_t z2) * (lod_t z1 + lod_t z2)) by ring.
  rewrite Rabs_mult.
  rewrite (Rabs_pos_eq (lod_t z1 + lod_t z2)) by lra.
  pose proof (Rabs_pos (lod_t z1 - lod_t z2)). nra.
Qed.

Lemma particleCount_mono (z1 z2 : R) :
  z1 <= z2 -> particleCount (getZoomParams z2) <= particleCount (getZoomParams z1).
Proof.
  intros H. rewrite !particleCount_eq. pose proof (ease_mono z1 z2 H).
  assert (IZR (Js.round (1500 * (1 - lod_ease z2 * 0.9)))
            <= IZR (Js.round (1500 * (1 - lod_ease z1 * 0.9))))
    by (apply round_mono; lra).
  unfold Js.max, Rmax. repeat destruct (Rle_dec _ _); lra.
Qed.

Lemma interpRadius_mono (z1 z2 : R) :
  z1 <= z2 -> interpRadius (getZoomParams z1) <= interpRadius (getZoomParams z2).
Proof.
  intros H. rewrite !interpRadius_eq. pose proof (delta_mono z1 z2 H).
  pose proof (delta_range z1).
  assert (IZR (Js.round (lod_delta z1 * lod_delta z1 * 500))
            <= IZR (Js.round (lod_delta z2 * lod_delta z2 * 500)))
    by (apply round_mono; nra).
  lra.
Qed.

(** Claim C7 (amended).  [getZoomParams] is monotone in the zoom (particle
    count non-increasing, interpolation radius non-decreasing), and its
    only jumps are the unit steps of [Math.round]: the particle count
    moves by at most [450 * |dz| + 1] and the radius by at most
    [14000 * |dz| + 1] between zooms [z1] and [z2]. *)
Theorem getZoomParams_monotone_unit_jumps (z1 z2 : R) :
  (z1 <= z2 ->
   particleCount (getZoomParams z2) <= particleCount (getZoomParams z1) /\
   interpRadius (getZoomParams z1) <= interpRadius (getZoomParams z2)) /\
  Rabs (particleCount (getZoomParams z1) - particleCount (getZoomParams z2))
    <= 450 * Rabs (z1 - z2) + 1 /\
  Rabs (interpRadius (getZoomParams z1) - interpRadius (getZoomParams z2))
    <= 14000 * Rabs (z1 - z2) + 1.
Proof.
  split; [intros H; split; [apply particleCount_mono | apply interpRadius_mono]; exact H|].
  split.
  - rewrite !particleCount_eq.
    eapply Rle_trans; [apply max_diff|].
    eapply Rle_trans; [apply round_diff|].
    pose proof (ease_lip z1 z2).
    replace (1500 * (1 - lod_ease z1 * 0.9) - 1500 * (1 - lod_ease z2 * 0.9))
      with (-1350 * (lod_ease z1 - lod_ease z2)) by lra.
    rewrite Rabs_mult. rewrite (Rabs_left (-1350)) by lra. lra.
  - rewrite !interpRadius_eq.
    replace (2000 + IZR (Js.round (lod_delta z1 * lod_delta z1 * 500)) -
             (2000 + IZR (Js.round (lod_delta z2 * lod_delta z2 * 500))))
      with (IZR (Js.round (lod_delta z1 * lod_delta z1 * 500)) -
            IZR (Js.round (lod_delta z2 * lod_delta z2 * 500))) by ring.
    eapply Rle_trans; [apply round_diff|].
    pose proof (delta_lip z1 z2). pose proof (delta_range z1). pose proof (delta_range z2).
    replace (lod_delta z1 * lod_delta z1 * 500 - lod_delta z2 * lod_delta z2 * 500)
      with ((lod_delta z1 - lod_delta z2) * (500 * (lod_delta z1 + lod_delta z2))) by ring.
    rewrite Rabs_mult.
    rewrite (Rabs_pos_eq (500 * (lod_delta z1 + lod_delta z2))) by lra.
    pose proof (Rabs_pos (lod_delta z1 - lod_delta z2)). nra.
Qed.

(** Claim C7 (counterexample).  At the zoom-level boundary 5 the particle count is
    [Math.round(1462.5) = 1463], while at every zoom slightly above 5 it is
    1462: the function jumps at zoom 5. *)
Lemma particleCount_jump_at_zoom_5 :
  particleCount (getZoomParams 5) = 1463 /\
  (forall eps, 0 < eps <= 1 / 100 ->
     particleCount (getZoomParams (5 + eps)) = 1462).
Proof.
  split.
  - rewrite particleCount_eq. unfold lod_ease, lod_delta, BASE_ZOOM.
    assert (Hd : Js.max 0 (Js.max 2 (Js.min 5 18) - 4) = 1) by (minmax; lra).
    rewrite Hd.
    assert (Ht : Js.min 1 (1 / 6) = 1 / 6) by (minmax; lra).
    rewrite Ht. unfold Js.round.
    rewrite (floor_unique _ 1463); [minmax; lra|].
    split; lra.
  - intros eps [H1 H2]. rewrite particleCount_eq. unfold lod_ease, lod_delta, BASE_ZOOM.
    assert (Hd : Js.max 0 (Js.max 2 (Js.min (5 + eps) 18) - 4) = 1 + eps)
      by (minmax; lra).
    rewrite Hd.
    assert (Ht : Js.min 1 ((1 + eps) / 6) = (1 + eps) / 6) by (minmax; lra).
    rewrite Ht. unfold Js.round.
    rewrite (floor_unique _ 1462); [minmax; lra|].
    split; nra.
Qed.

End LodFacts.

Module ParticleFacts.
Import Particles JsFacts.

Lemma floor_nonneg (r : R) : 0 <= r -> (0 <= Js.floor r)%Z.
Proof.
  intros H. pose proof (floor_spec r) as [H1 H2].
  assert (IZR (-1) < IZR (Js.floor r)) by (simpl; lra).
  apply lt_IZR in H0. lia.
Qed.

Lemma scaled_draw_in (r w : R) : 0 <= r < 1 -> 0 < w -> 0 <= r * w < w.
Proof. intros [H1 H2] Hw. split; nra. Qed.

(** Claim C3.  Right after a respawn, the particle lies in the current viewport
    [0,w) x [0,h) and its age is 0: both for the respawn branch of the
    Leaflet particle layer and for [resetParticle] of the flow layer. *)
Theorem respawn_in_viewport_age_zero (rnd : nat -> R) (k : nat)
    (w h : R) (zpMaxAge TRAIL_LENGTH : Z) (p : Particle) (q : FlowParticle) :
  (forall i, 0 <= rnd i < 1) -> 0 < w -> 0 < h ->
  (0 <= x (fst (respawn w h zpMaxAge rnd k p)) < w /\
   0 <= y (fst (respawn w h zpMaxAge rnd k p)) < h /\
   age (fst (respawn w h zpMaxAge rnd k p)) = 0%Z) /\
  (0 <= fx (fst (resetParticle w h TRAIL_LENGTH rnd k q)) < w /\
   0 <= fy (fst (resetParticle w h TRAIL_LENGTH rnd k q)) < h /\
   fage (fst (resetParticle w h TRAIL_LENGTH rnd k q)) = 0%Z).
Proof.
  intros Hr Hw Hh. simpl.
  repeat split; try reflexivity;
    first [ apply (scaled_draw_in _ w) | apply (scaled_draw_in _ h) ]; auto.
Qed.

Lemma respawn_in_viewport_age_zero_witness :
  ((forall i : nat, 0 <= (fun _ : nat => 1 / 2) i < 1) /\ 0 < 800 /\ 0 < 600) /\
  (0 <= x (fst (respawn 800 600 120 (fun _ => 1 / 2) 0 (mkP 5 5 5 5 3 130))) < 800 /\
   0 <= y (fst (respawn 800 600 120 (fun _ => 1 / 2) 0 (mkP 5 5 5 5 3 130))) < 600 /\
   age (fst (respawn 800 600 120 (fun _ => 1 / 2) 0 (mkP 5 5 5 5 3 130))) = 0%Z) /\
  (0 <= fx (fst (resetParticle 800 600 40 (fun _ => 1 / 2) 0 (mkFP 5 5 3 50 [] 0))) < 800 /\
   0 <= fy (fst (resetParticle 800 600 40 (fun _ => 1 / 2) 0 (mkFP 5 5 3 50 [] 0))) < 600 /\
   fage (fst (resetParticle 800 600 40 (fun _ => 1 / 2) 0 (mkFP 5 5 3 50 [] 0))) = 0%Z).
Proof.
  assert (Hr : forall i : nat, 0 <= (fun _ : nat => 1 / 2) i < 1) by (intros; lra).
  assert (Hw : 0 < 800) by lra. assert (Hh : 0 < 600) by lra.
  split; [split; [exact Hr | split; [exact Hw | exact Hh]]|].
  exact (respawn_in_viewport_age_zero (fun _ => 1 / 2) 0 800 600 120 40
           (mkP 5 5 5 5 3 130) (mkFP 5 5 3 50 [] 0) Hr Hw Hh).
Defined.

(** After a reset the age is 0 and [maxAge >= 80]. *)
Lemma reset2D_age_ok (W H : R) (rnd : nat -> R) (k : nat) (p : Particle2D) :
  (forall i, 0 <= rnd i < 1) ->
  (qage (fst (resetParticle2D W H rnd k p)) <= qmaxAge (fst (resetParticle2D W H rnd k p)))%Z.
Proof.
  intros Hr. cbn [fst resetParticle2D qage qmaxAge]. destruct (Hr (S (S k))) as [Ha Hb].
  assert (Hp : 0 <= rnd (S (S k)) * 80) by (apply Rmult_le_pos; lra).
  pose proof (floor_nonneg _ Hp). lia.

Qed.

Lemma step2D_age_ok project off points W H rnd k p :
  (forall i, 0 <= rnd i < 1) ->
  (qage (fst (step2D project off points W H rnd k p))
     <= qmaxAge (fst (step2D project off points W H rnd k p)))%Z.
Proof.
  intros Hr. unfold step2D.
  destruct (interpolateWind4 project off (qx p) (qy p) points) as [wind|];
    [|apply reset2D_age_ok; exact Hr].
  destruct (Z.ltb (qmaxAge p) (qage p + 1)) eqn:E;
    [apply reset2D_age_ok; exact Hr|].
  apply Z.ltb_ge in E.
  repeat (destruct (Rlt_dec _ _); [apply reset2D_age_ok; exact Hr|]).
  simpl. exact E.
Qed.

Lemma frame2D_age_ok project off points W H rnd k ps :
  (forall i, 0 <= rnd i < 1) ->
  forall p, In p (fst (frame2D project off points W H rnd k ps)) ->
    (qage p <= qmaxAge p)%Z.
Proof.
  intros Hr. revert k. induction ps as [|p0 rest IH]; intros k p Hin; [destruct Hin|].
  simpl in Hin.
  destruct (step2D project off points W H rnd k p0) as [p' k1] eqn:E1.
  destruct (frame2D project off points W H rnd k1 rest) as [rest' k2] eqn:E2.
  simpl in Hin. destruct Hin as [<-|Hin].
  - pose proof (step2D_age_ok project off points W H rnd k p0 Hr) as Hs.
    rewrite E1 in Hs. exact Hs.
  - specialize (IH k1 p). rewrite E2 in IH. apply IH. exact Hin.
Qed.

(** What the fallback does guarantee: after at least one frame, every
    particle of the pool has [age <= maxAge]. *)
Lemma frames2D_age_ok project off points W H rnd (N k : nat) ps :
  (forall i, 0 <= rnd i < 1) -> (1 <= N)%nat ->
  forall p, In p (frames2D project off points W H rnd N k ps) ->
    (qage p <= qmaxAge p)%Z.
Proof.
  intros Hr HN. revert k ps. induction N as [|N IH]; intros k ps p Hin; [lia|].
  simpl in Hin.
  destruct (frame2D project off points W H rnd k ps) as [ps' k'] eqn:E.
  destruct N as [|N'].
  - simpl in Hin. pose proof (frame2D_age_ok project off points W H rnd k ps Hr p) as Hf.
    rewrite E in Hf. apply Hf. exact Hin.
  - eapply IH; [lia| exact Hin].
Qed.

(** Claim C4.  With zero frames the initial pool of the 2D fallback
    can already hold a particle with [age > maxAge]: its age is drawn from
    [0,120) while its [maxAge] is drawn from [80,160).  Draws 1/2, 1/2,
    119/120, 0 give age 119 and maxAge 80. *)
Theorem initPool2D_age_exceeds_maxAge :
  match frames2D (fun _ _ => (0, 0)) (0, 0) [] 800 600 bad_draws 0 0
          (initPool 800 600 bad_draws PARTICLE_COUNT 0) with
  | p :: _ => qage p = 119%Z /\ qmaxAge p = 80%Z /\ (qmaxAge p < qage p)%Z
  | [] => False
  end.
Proof.
  simpl. unfold bad_draws.
  rewrite (floor_unique (119 / 120 * 120) 119) by (split; lra).
  rewrite (floor_unique (0 * 80) 0) by (split; lra).
  split; [reflexivity| split; [reflexivity| lia]].
Qed.

End ParticleFacts.

Module ShaderFacts.
Import Shader.

Lemma mix_same (a t : R) : Js.mix a a t = a.
Proof. unfold Js.mix. ring. Qed.

Lemma lookup_edge (res uv : vec2) : lookup_wind edge_wind res uv = v2 1 (1 / 2).
Proof.
  unfold lookup_wind, vmixs, edge_wind. cbn [vx vy]. rewrite !mix_same. reflexivity.
Qed.

Lemma fract_eq (x : R) (z : Z) (r : R) :
  x = IZR z + r -> 0 <= r < 1 -> Js.fract x = r.
Proof.
  intros Hx Hr. unfold Js.fract.
  rewrite (JsFacts.floor_unique x z); lra.
Qed.

Lemma fract_range (x : R) : 0 <= Js.fract x < 1.
Proof. unfold Js.fract. pose proof (JsFacts.floor_spec x). lra. Qed.

Lemma rand_range (co : vec2) : 0 <= rand co < 1.
Proof. apply fract_range. Qed.

Lemma rand_origin : rand (v2 0 0) = 0.
Proof.
  unfold rand, dot. cbn [vx vy].
  replace (12.9898 * 0 + 78.233 * 0) with 0 by lra.
  rewrite sin_0, Rmult_0_l. apply (fract_eq 0 0); lra.
Qed.

Lemma step_below (e x : R) : x < e -> Js.step e x = 0.
Proof. intros H. unfold Js.step. rdec. reflexivity. Qed.

Lemma step_above (e x : R) : e <= x -> Js.step e x = 1.
Proof. intros H. unfold Js.step. rdec. reflexivity. Qed.

Lemma step_01 (e x : R) : 0 <= Js.step e x <= 1.
Proof. unfold Js.step. destruct (Rlt_dec x e); lra. Qed.

Lemma clamp_in (x : R) : 0 <= x <= 1 -> Js.clamp x 0 1 = x.
Proof.
  intros H. unfold Js.clamp, Rmax, Rmin.
  destruct (Rle_dec x 0); destruct (Rle_dec _ 1); lra.
Qed.

Lemma sqrt_100 : sqrt (10 * 10 + 0 * 0) = 10.
Proof.
  replace (10 * 10 + 0 * 0) with (10 * 10) by ring. apply sqrt_square. lra.
Qed.

Lemma speed_ratio_lt_1 : 0 < 10 / sqrt (10 * 10 + 1 * 1) < 1.
Proof.
  assert (H : 10 < sqrt (10 * 10 + 1 * 1)).
  { rewrite <- (sqrt_square 10) at 1 by lra. apply sqrt_lt_1_alt. lra. }
  split.
  - apply Rdiv_lt_0_compat; lra.
  - apply (Rmult_lt_reg_r (sqrt (10 * 10 + 1 * 1))); [lra|].
    unfold Rdiv. rewrite Rmult_assoc, Rinv_l by lra. lra.
Qed.

Lemma update003_edge_step : Update003.main edge_wind edge_uniforms003 (v2 0 0) edge_pos = v2 (15/100000) (1/2).
Proof.
  unfold Update003.main. cbv beta zeta. rewrite lookup_edge.
  unfold edge_uniforms003, Update003.bbox_uniform, vmix, vscale, vadd, vadds,
    vfract, edge_pos, length, dot, radians, vmixs.
  cbn [vx vy v4y v4w Update003.u_wind_min Update003.u_wind_max
       Update003.u_speed_factor Update003.u_rand_seed Update003.u_drop_rate
       Update003.u_drop_rate_bump Update003.u_bbox].
  assert (Hu : Js.mix (-10) 10 1 = 10) by (unfold Js.mix; lra).
  assert (Hv : Js.mix (-1) 1 (1 / 2) = 0) by (unfold Js.mix; lra).
  assert (Hc : cos ((Js.mix (-10 / 180 + 0.5) (10 / 180 + 0.5) (1 / 2) * 180 - 90)
                    * PI / 180) = 1).
  { replace (Js.mix (-10 / 180 + 0.5) (10 / 180 + 0.5) (1 / 2) * 180 - 90) with 0
      by (unfold Js.mix; lra).
    unfold Rdiv. rewrite !Rmult_0_l. apply cos_0. }
  rewrite Hu, Hv, Hc, sqrt_100, !Rmult_0_r, rand_origin.
  rewrite step_below by (pose proof speed_ratio_lt_1; lra).
  rewrite (fract_eq (1 + 10 / 1 * 0.15 * 0.0001 + 1) 2 (15 / 100000)) by lra.
  rewrite (fract_eq (1 / 2 + 0 * 0.15 * 0.0001 + 1) 1 (1 / 2)) by lra.
  unfold Js.mix. f_equal; lra.
Qed.
Lemma clamp_one (x : R) : 1 <= x -> Js.clamp x 0 1 = 1.
Proof.
  intros H. unfold Js.clamp, Rmax, Rmin.
  destruct (Rle_dec x 0); destruct (Rle_dec _ 1); lra.
Qed.

Lemma clamp_rand (co : vec2) : Js.clamp (rand co) 0 1 = rand co.
Proof. pose proof (rand_range co). apply clamp_in. lra. Qed.

Lemma max_one (a : R) : 0 <= a <= 1 -> Js.max a 1 = 1.
Proof. intros H. unfold Js.max, Rmax. destruct (Rle_dec a 1); lra. Qed.

Lemma mix_one (a b : R) : Js.mix a b 1 = b.
Proof. unfold Js.mix. ring. Qed.

Lemma update002_edge_step (ms mn : R) :
  Update002.main edge_wind (edge_uniforms002 ms mn) (v2 0 0) edge_pos
  = v2 (rand (v2 (23 / 10) (18 / 10))) (rand (v2 (31 / 10) (26 / 10))).
Proof.
  unfold Update002.main. cbv beta zeta. rewrite lookup_edge.
  unfold edge_uniforms002, vmix, vscale, vadd, vadds, edge_pos, length, dot,
    vmixs, vclamp.
  cbn [vx vy Update002.u_wind_min Update002.u_wind_max
       Update002.u_speed_factor Update002.u_rand_seed Update002.u_drop_rate
       Update002.u_drop_rate_bump Update002.u_merc_south Update002.u_merc_north].
  assert (Hu : Js.mix (-10) 10 1 = 10) by (unfold Js.mix; lra).
  assert (Hv : Js.mix (-1) 1 (1 / 2) = 0) by (unfold Js.mix; lra).
  rewrite Hu, Hv.
  set (d := Js.max 0.05 _).
  assert (Hd : 0.05 <= d) by (unfold d, Js.max; apply Rmax_l).
  assert (Hq : 0 < 10 / d) by (apply Rdiv_lt_0_compat; lra).
  rewrite (step_above 1 (1 + 10 / d * 0.8 * 0.0003)) by lra.
  match goal with
  | |- context [Js.clamp (Js.step ?a 0 + 1 + Js.step ?b 0 + Js.step 1 ?c) 0 1] =>
      rewrite (clamp_one (Js.step a 0 + 1 + Js.step b 0 + Js.step 1 c))
        by (pose proof (step_01 a 0); pose proof (step_01 b 0);
            pose proof (step_01 1 c); lra)
  end.
  match goal with
  | |- context [Js.max (Js.step ?e ?x) 1] =>
      rewrite (max_one (Js.step e x)) by apply step_01
  end.
  rewrite !mix_one, !clamp_rand.
  f_equal; f_equal; f_equal; lra.
Qed.
(** Claim C2.  A particle on the right edge of the viewport ([pos.x = 1])
    moving rightward (uniform wind [u = 10], [v = 0]): the [part_003]
    update shader wraps it with [fract] to [x = 0.00015], next to the left
    edge, and does not respawn it (the drop test [rand(seed) = 0] fails for
    [u_rand_seed = 0]); the [part_002] shader, whose out-of-bounds test
    forces a respawn, sends it to [random_pos] instead. *)
Theorem frag_update_right_edge_wraps :
  Update003.main edge_wind edge_uniforms003 (v2 0 0) edge_pos
    = v2 (15 / 100000) (1 / 2)
  /\ (forall merc_south merc_north : R,
        Update002.main edge_wind (edge_uniforms002 merc_south merc_north)
          (v2 0 0) edge_pos
        = v2 (rand (v2 (23 / 10) (18 / 10))) (rand (v2 (31 / 10) (26 / 10)))).
Proof.
  split.
  - exact update003_edge_step.
  - intros ms mn. exact (update002_edge_step ms mn).
Qed.
End ShaderFacts.

Module WindFieldFacts.
Import Grid WindField.

Lemma raster_nth_from (w : nat) (f : nat -> nat -> R) (d : R) (n : nat) :
  forall s y x, (s <= y < s + n)%nat -> (x < w)%nat ->
  nth ((y - s) * w + x)
    (flat_map (fun y => map (fun x => f x y) (seq 0 w)) (seq s n)) d = f x y.
Proof.
  induction n as [|n IH]; intros s y x Hy Hx; [lia|].
  cbn [seq flat_map].
  destruct (Nat.eq_dec y s) as [->|Hne].
  - rewrite Nat.sub_diag, Nat.mul_0_l, Nat.add_0_l.
    rewrite app_nth1 by (rewrite length_map, length_seq; lia).
    rewrite nth_indep with (d' := (fun x0 => f x0 s) 0%nat)
      by (rewrite length_map, length_seq; lia).
    pose proof (map_nth (fun x0 => f x0 s) (seq 0 w) 0%nat x) as E.
    cbv beta in E. rewrite E, seq_nth by lia. reflexivity.
  - rewrite app_nth2 by (rewrite length_map, length_seq; nia).
    rewrite length_map, length_seq.
    replace ((y - s) * w + x - w)%nat with ((y - S s) * w + x)%nat by nia.
    apply IH; lia.
Qed.

Lemma raster_nth (h w x y : nat) (f : nat -> nat -> R) (d : R) :
  (x < w)%nat -> (y < h)%nat -> nth (y * w + x) (raster h w f) d = f x y.
Proof.
  intros Hx Hy. unfold raster.
  replace (y * w + x)%nat with ((y - 0) * w + x)%nat by lia.
  apply raster_nth_from; lia.
Qed.

Lemma cell_loop_hit (lat0 lon : R) (pre post : list GridPoint) (pt : GridPoint) :
  forall totalW uI vI,
  (forall q, In q pre ->
     0.01 <= (lat0 - lat q) * (lat0 - lat q) + (lon - lng q) * (lon - lng q)) ->
  lat0 = lat pt -> lon = lng pt ->
  cell_loop lat0 lon (pre ++ pt :: post) totalW uI vI = (1, windU pt, windV pt).
Proof.
  induction pre as [|q pre IH]; intros totalW uI vI Hpre Hlat Hlon; cbn [app cell_loop].
  - rewrite Hlat, Hlon. rdec. reflexivity.
  - assert (Hq := Hpre q (or_introl eq_refl)). rdec.
    apply IH; auto. intros q' Hq'. apply Hpre. right. exact Hq'.
Qed.

Lemma floor_IZR (z : Z) : Js.floor (IZR z) = z.
Proof. apply JsFacts.floor_unique. lra. Qed.

Lemma node_coord (n k : nat) :
  (2 <= n)%nat -> INR k / (INR n - 1) * (INR n - 1) = IZR (Z.of_nat k).
Proof.
  intros Hn. rewrite <- INR_IZR_INZ.
  assert (H2 : INR 2 <= INR n) by (apply le_INR; exact Hn).
  simpl in H2. field. lra.
Qed.

(** Sampling exactly at a grid node reads that node's stored values. *)
Lemma sampleWindField_node (fld : WindField) (x y : nat) :
  (2 <= width fld)%nat -> (2 <= height fld)%nat ->
  (x < width fld)%nat -> (y < height fld)%nat ->
  sampleWindField fld (INR x / (INR (width fld) - 1)) (INR y / (INR (height fld) - 1))
  = mkSample (nth (y * width fld + x) (uField fld) 0)
      (nth (y * width fld + x) (vField fld) 0)
      (nth (y * width fld + x) (speedField fld) 0).
Proof.
  intros Hw Hh Hx Hy. unfold sampleWindField. cbv beta zeta.
  rewrite (node_coord (width fld) x Hw), (node_coord (height fld) y Hh), !floor_IZR.
  replace (Z.max 0 (Z.min (Z.of_nat x) (Z.of_nat (width fld) - 1)))
    with (Z.of_nat x) by lia.
  replace (Z.max 0 (Z.min (Z.of_nat y) (Z.of_nat (height fld) - 1)))
    with (Z.of_nat y) by lia.
  replace (Z.to_nat (Z.of_nat y * Z.of_nat (width fld) + Z.of_nat x))
    with (y * width fld + x)%nat by lia.
  rewrite Rminus_diag. f_equal; ring.
Qed.

(** Claim C6 (amended).  Sampling the rasterised field at a sample's own
    coordinates recovers the sample's [(u, v)] exactly when the sample sits
    on a grid node of [buildWindField] and no sample earlier in the list
    lies within 0.1 degree of it ([d2 < 0.01]); the node then copies that
    sample and the bilinear weights of the other nodes vanish. *)
Theorem sampleAt_node_sample_recovered (pre post : list GridPoint) (pt : GridPoint)
  (bounds : Bounds) (resolution x y : nat) :
  west bounds < east bounds -> south bounds < north bounds ->
  (2 <= resolution)%nat -> (2 <= field_height resolution)%nat ->
  (x < resolution)%nat -> (y < field_height resolution)%nat ->
  lng pt = node_lon bounds resolution x ->
  lat pt = node_lat bounds (field_height resolution) y ->
  (forall q, In q pre ->
     0.01 <= (lat pt - lat q) * (lat pt - lat q) + (lng pt - lng q) * (lng pt - lng q)) ->
  su (sampleAt (buildWindField (pre ++ pt :: post) bounds resolution) bounds
        (lat pt) (lng pt)) = windU pt
  /\ sv (sampleAt (buildWindField (pre ++ pt :: post) bounds resolution) bounds
        (lat pt) (lng pt)) = windV pt.
Proof.
  intros Hwe Hsn Hw Hh Hx Hy Hlng Hlat Hpre.
  set (fld := buildWindField (pre ++ pt :: post) bounds resolution).
  assert (Ew : width fld = resolution) by reflexivity.
  assert (Eh : height fld = field_height resolution) by reflexivity.
  assert (Rw : INR 2 <= INR resolution) by (apply le_INR; exact Hw).
  assert (Rh : INR 2 <= INR (field_height resolution)) by (apply le_INR; exact Hh).
  simpl in Rw, Rh.
  assert (Nx : (lng pt - west bounds) / (east bounds - west bounds)
               = INR x / (INR (width fld) - 1)).
  { rewrite Ew, Hlng. unfold node_lon. field. lra. }
  assert (Ny : (north bounds - lat pt) / (north bounds - south bounds)
               = INR y / (INR (height fld) - 1)).
  { rewrite Eh, Hlat. unfold node_lat. field. lra. }
  unfold sampleAt. rewrite Nx, Ny.
  rewrite sampleWindField_node by lia. cbn [su sv].
  rewrite Ew. unfold fld, buildWindField. cbn [uField vField].
  rewrite !raster_nth by lia. unfold cell.
  rewrite cell_loop_hit by (rewrite <- ?Hlat, <- ?Hlng; auto).
  rdec. cbn [fst snd]. split; field.
Qed.

Lemma field_height_120 : field_height 120 = 72%nat.
Proof.
  unfold field_height, Js.round.
  rewrite (JsFacts.floor_unique _ 72); [reflexivity|].
  rewrite INR_IZR_INZ. cbn [Z.of_nat Pos.of_succ_nat Pos.succ]. lra.
Qed.

Lemma INR_120 : INR 120 = 120.
Proof. rewrite INR_IZR_INZ. reflexivity. Qed.

Lemma INR_72 : INR 72 = 72.
Proof. rewrite INR_IZR_INZ. reflexivity. Qed.

Lemma rt_A_lat : lat rt_A = 71. Proof. reflexivity. Qed.
Lemma rt_A_lng : lng rt_A = 1 / 2. Proof. reflexivity. Qed.
Lemma rt_B_lat : lat rt_B = 71. Proof. reflexivity. Qed.
Lemma rt_B_lng : lng rt_B = 3 / 2. Proof. reflexivity. Qed.

Lemma rt_A_wind : windU rt_A = 0 /\ windV rt_A = -10.
Proof.
  unfold windU, windV, rt_A. cbn [windDir windSpeed].
  replace (0 * PI / 180) with 0 by field. rewrite sin_0, cos_0. split; ring.
Qed.

Lemma rt_B_wind : windU rt_B = 0 /\ windV rt_B = 10.
Proof.
  unfold windU, windV, rt_B. cbn [windDir windSpeed].
  replace (180 * PI / 180) with PI by field. rewrite sin_PI, cos_PI. split; ring.
Qed.

Lemma rt_node_lon0 : node_lon rt_bounds 120 0 = 0.
Proof. unfold node_lon, rt_bounds. cbn [west east]. rewrite INR_120. cbn [INR]. field. Qed.

Lemma rt_node_lon1 : node_lon rt_bounds 120 1 = 1.
Proof. unfold node_lon, rt_bounds. cbn [west east]. rewrite INR_120. cbn [INR]. field. Qed.

Lemma rt_node_lat0 : node_lat rt_bounds 72 0 = 71.
Proof. unfold node_lat, rt_bounds. cbn [north south]. rewrite INR_72. cbn [INR]. field. Qed.

(** The two nodes beside [rt_A] on the top row. *)
Lemma rt_node_values :
  nth 0 (vField (buildWindField [rt_A; rt_B] rt_bounds 120)) 0 = -400 / 41
  /\ nth 1 (vField (buildWindField [rt_A; rt_B] rt_bounds 120)) 0 = 0.
Proof.
  destruct rt_A_wind as [uA vA]. destruct rt_B_wind as [uB vB].
  unfold buildWindField. cbn [vField].
  rewrite (raster_nth _ _ 0 0), (raster_nth _ _ 1 0) by (rewrite ?field_height_120; lia).
  unfold cell. rewrite !field_height_120, rt_node_lon0, rt_node_lon1, rt_node_lat0.
  cbn [cell_loop]. rewrite rt_A_lat, rt_A_lng, rt_B_lat, rt_B_lng, vA, vB.
  rdec. cbn [fst snd]. rdec. split; field.
Qed.

(** Claim C6 (counterexample).  Two samples on the northern edge, 1 degree
    apart, with opposite winds ([v = -10] and [v = +10]); the first sits
    half-way between two grid nodes.  Sampling the field built at the
    layer's resolution 120 at that sample's own coordinates gives
    [v = -200/41], about [-4.9], not [-10]. *)
Lemma buildWindField_roundtrip_off_node : sv (sampleAt (buildWindField [rt_A; rt_B] rt_bounds 120) rt_bounds
               (lat rt_A) (lng rt_A)) = -200 / 41 /\ windV rt_A = -10.
Proof.
  set (fld := buildWindField [rt_A; rt_B] rt_bounds 120).
  assert (Ew : width fld = 120%nat) by reflexivity.
  assert (Eh : height fld = 72%nat) by exact field_height_120.
  unfold sampleAt, sampleWindField. cbv beta zeta. rewrite Ew, Eh.
  cbn [rt_A rt_B rt_bounds lat lng west east north south sv].
  rewrite INR_120, INR_72.
  replace ((1 / 2 - 0) / (119 - 0) * (120 - 1)) with (1 / 2) by field.
  replace ((71 - 71) / (71 - 0) * (72 - 1)) with 0 by field.
  rewrite (JsFacts.floor_unique (1 / 2) 0), (JsFacts.floor_unique 0 0) by lra.
  repeat match goal with
  | |- context [Z.to_nat ?e] =>
      let v := eval vm_compute in (Z.to_nat e) in change (Z.to_nat e) with v
  end.
  destruct rt_node_values as [v0 v1]. unfold fld. rewrite v0, v1.
  split; [lra | apply rt_A_wind].
Qed.

Lemma sampleAt_node_sample_recovered_witness :
  su (sampleAt (buildWindField ([] ++ rt_C :: [rt_B]) rt_bounds 120) rt_bounds
        (lat rt_C) (lng rt_C)) = windU rt_C
  /\ sv (sampleAt (buildWindField ([] ++ rt_C :: [rt_B]) rt_bounds 120) rt_bounds
        (lat rt_C) (lng rt_C)) = windV rt_C.
Proof.
  apply (sampleAt_node_sample_recovered [] [rt_B] rt_C rt_bounds 120 0 0).
  - cbn. lra.
  - cbn. lra.
  - lia.
  - rewrite field_height_120. lia.
  - lia.
  - rewrite field_height_120. lia.
  - rewrite rt_node_lon0. reflexivity.
  - rewrite field_height_120, rt_node_lat0. reflexivity.
  - intros q [].
Defined.

End WindFieldFacts.

Module GridStoreFacts.
Import GridStore.

Lemma retry_delays :
  Rmin (5000 * 2 ^ (1 - 1)) 30000 = 5000
  /\ Rmin (5000 * 2 ^ (2 - 1)) 30000 = 10000
  /\ Rmin (5000 * 2 ^ (3 - 1)) 30000 = 20000.
Proof.
  cbn [Nat.sub pow]. repeat split; rewrite Rmin_left; lra.
Qed.

(** Claim C8.  With the callback of [wind-layer.tsx], one answer
    [{points: []}] replaces the held samples [P], whatever they are, by the
    empty set.  The retrying callback of [part_006] keeps [P]: after three
    empty answers a fourth attempt is still pending (back-off 20 s), and
    after the fourth empty answer it stops with [retryCount = 3]. *)
Theorem fetchGridData_empty_response_clears_points (P : list Grid.GridPoint) :
  spoints (fetchGridData_simple key0 empty_response (mkSS P ""%string)) = []
  /\ run_retry key0 [empty_response; empty_response; empty_response] false
       (mkRS P 0 ""%string None) = mkRS P 3 ""%string (Some 20000)
  /\ run_retry key0 [empty_response; empty_response; empty_response; empty_response]
       false (mkRS P 0 ""%string None) = mkRS P 3 key0 None.
Proof.
  destruct retry_delays as [_ [_ D3]].
  split; [reflexivity|]. split; [|reflexivity].
  cbn. rewrite <- D3. reflexivity.
Qed.

End GridStoreFacts.

Module GridWeatherFacts.
Import Grid GridWeather.

Lemma for_iter_total {A : Type} (body : R -> option (list A)) :
  (forall x, exists l, body x = Some l) ->
  forall k v step lim, exists l, for_iter k v step lim body = Some l.
Proof.
  intros Hb k. induction k as [|k IH]; intros v step lim; cbn [for_iter].
  - eauto.
  - destruct (Rle_dec v lim); [|eauto].
    destruct (Hb v) as [l ->]. destruct (IH (v + step) step lim) as [l' ->]. eauto.
Qed.

(** With a positive step and rounds that all end, the loop ends. *)
Lemma for_range_total {A : Type} (v step lim : R) (body : R -> option (list A)) :
  0 < step -> (forall x, exists l, body x = Some l) ->
  exists l, for_range v step lim body = Some l.
Proof.
  intros Hs Hb. unfold for_range.
  destruct (Rle_dec v lim); [|eauto].
  destruct (Rle_dec step 0); [lra|]. apply for_iter_total; exact Hb.
Qed.

Lemma for_iter_Forall {A : Type} (P : A -> Prop) (body : R -> option (list A)) :
  (forall x l, body x = Some l -> Forall P l) ->
  forall k v step lim l, for_iter k v step lim body = Some l -> Forall P l.
Proof.
  intros Hb k. induction k as [|k IH]; intros v step lim l H; cbn [for_iter] in H.
  - injection H as <-. constructor.
  - destruct (Rle_dec v lim); [|injection H as <-; constructor].
    destruct (body v) as [l1|] eqn:E1; [|discriminate].
    destruct (for_iter k (v + step) step lim body) as [l2|] eqn:E2; [|discriminate].
    injection H as <-. apply Forall_app. split; [exact (Hb _ _ E1) | exact (IH _ _ _ _ E2)].
Qed.

Lemma for_range_Forall {A : Type} (P : A -> Prop) (v step lim : R)
    (body : R -> option (list A)) (l : list A) :
  (forall x l', body x = Some l' -> Forall P l') ->
  for_range v step lim body = Some l -> Forall P l.
Proof.
  intros Hb H. unfold for_range in H.
  destruct (Rle_dec v lim); [|injection H as <-; constructor].
  destruct (Rle_dec step 0); [discriminate|].
  exact (for_iter_Forall P body Hb _ _ _ _ _ H).
Qed.

(** One round of the loop, then the loop from [v + step]: [for_range]
    unfolds as the [for] statement does. *)
Lemma for_range_step {A : Type} (v step lim : R) (body : R -> option (list A)) :
  0 < step -> v <= lim ->
  for_range v step lim body =
  match body v with
  | None => None
  | Some l =>
      match for_range (v + step) step lim body with
      | None => None
      | Some l' => Some (l ++ l')
      end
  end.
Proof.
  intros Hs Hv.
  assert (Hi : for_iter (Z.to_nat (Js.floor ((lim - v) / step))) (v + step) step lim body
               = for_range (v + step) step lim body).
  { unfold for_range. destruct (Rle_dec (v + step) lim) as [Hl|Hl].
    - destruct (Rle_dec step 0); [lra|].
      assert (Hq : (lim - (v + step)) / step = (lim - v) / step - 1) by (field; lra).
      assert (Hge : 1 <= (lim - v) / step).
      { apply (Rmult_le_reg_r step); [lra|]. unfold Rdiv.
        rewrite Rmult_assoc, Rinv_l; lra. }
      pose proof (JsFacts.floor_spec ((lim - v) / step)) as Hf.
      assert (Hf1 : Js.floor ((lim - (v + step)) / step)
                    = (Js.floor ((lim - v) / step) - 1)%Z).
      { rewrite Hq. apply JsFacts.floor_unique. rewrite minus_IZR. lra. }
      assert (Hpos : (1 <= Js.floor ((lim - v) / step))%Z).
      { apply (Zlt_le_succ 0), lt_IZR. lra. }
      rewrite Hf1.
      replace (Z.to_nat (Js.floor ((lim - v) / step)))
        with (S (Z.to_nat (Js.floor ((lim - v) / step) - 1))) by lia.
      reflexivity.
    - destruct (Z.to_nat (Js.floor ((lim - v) / step))); cbn [for_iter]; [reflexivity|].
      destruct (Rle_dec (v + step) lim); [lra|reflexivity]. }
  unfold for_range at 1.
  destruct (Rle_dec v lim); [|lra]. destruct (Rle_dec step 0); [lra|].
  cbn [for_iter]. destruct (Rle_dec v lim); [|lra].
  rewrite Hi. reflexivity.
Qed.

(** A first round with a result and rounds that all end give a non-empty
    result. *)
Lemma for_range_first {A : Type} (v step lim : R) (body : R -> option (list A))
    (a : A) (l0 : list A) :
  0 < step -> v <= lim -> body v = Some (a :: l0) ->
  (forall x, exists l, body x = Some l) ->
  exists b bs, for_range v step lim body = Some (b :: bs).
Proof.
  intros Hs Hv Hb Ht. rewrite for_range_step by assumption. rewrite Hb.
  destruct (for_range_total (v + step) step lim body Hs Ht) as [l' ->].
  exists a, (l0 ++ l'). reflexivity.
Qed.

Lemma first_cell_in (lo hi div : R) :
  lo <= hi -> 1 <= div -> lo + (hi - lo) / div / 2 <= hi.
Proof.
  intros Hlh Hd. set (q := (hi - lo) / div).
  assert (Hq : q * div = hi - lo) by (unfold q; field; lra).
  assert (0 <= q <= hi - lo) by nra. lra.
Qed.

Ltac band_tac :=
  unfold lat_band_open, grid_bounds, Js.max, Js.min, Rmax, Rmin in *;
  cbv beta iota zeta in *;
  repeat destruct (Rle_dec _ _); lra.

(** An open latitude band also gives an open longitude band. *)
Lemma band_bounds (s n w e : R) :
  lat_band_open s n ->
  let '(gs, gn, gw, ge) := grid_bounds s n w e in gs < gn /\ gw < ge.
Proof. intros H. band_tac. Qed.

Lemma grid_pairs_some (latDiv lngDiv scale : R) (maxPairs : nat) (s n w e : R) :
  lat_band_open s n -> 1 <= latDiv -> 1 <= lngDiv -> (0 < maxPairs)%nat ->
  exists p ps, grid_pairs latDiv lngDiv scale maxPairs s n w e = Some (p :: ps).
Proof.
  intros Hb Hla Hln Hm. pose proof (band_bounds s n w e Hb) as Hg.
  unfold grid_pairs. destruct (grid_bounds s n w e) as [[[gs gn] gw] ge].
  destruct Hg as [Hg1 Hg2]. cbv zeta.
  assert (Hls : 0 < (gn - gs) / latDiv) by (apply Rdiv_lt_0_compat; lra).
  assert (Hns : 0 < (ge - gw) / lngDiv) by (apply Rdiv_lt_0_compat; lra).
  assert (Hin : forall lat, exists l,
            for_range (gw + (ge - gw) / lngDiv / 2) ((ge - gw) / lngDiv) ge
              (fun lng => Some [(round_to scale lat, round_to scale lng)]) = Some l).
  { intros lat. apply for_range_total; [exact Hns | eauto]. }
  destruct (for_range_first (gw + (ge - gw) / lngDiv / 2) ((ge - gw) / lngDiv) ge
              (fun lng => Some [(round_to scale (gs + (gn - gs) / latDiv / 2),
                                 round_to scale lng)])
              (round_to scale (gs + (gn - gs) / latDiv / 2),
               round_to scale (gw + (ge - gw) / lngDiv / 2)) [] Hns) as (c & cs & Hc);
    [apply first_cell_in; lra | reflexivity | eauto |].
  destruct (for_range_first (gs + (gn - gs) / latDiv / 2) ((gn - gs) / latDiv) gn
              (fun lat => for_range (gw + (ge - gw) / lngDiv / 2) ((ge - gw) / lngDiv) ge
                 (fun lng => Some [(round_to scale lat, round_to scale lng)]))
              c cs Hls) as (b & bs & Hf);
    [apply first_cell_in; lra | exact Hc | exact Hin |].
  rewrite Hf. destruct maxPairs as [|m]; [lia|]. cbn [firstn]. eauto.
Qed.

(** Whenever the [part_012] handler answers with numeric bounds, it
    answers with a points payload, whatever the server state and the
    upstream answer. *)
Lemma handler_012_points (st : Server) (now s n w e : R) (up : Upstream)
    (r : Reply) (st' : Server) :
  handler_012 st now (Some s) (Some n) (Some w) (Some e) up = Some (r, st') ->
  exists pts, r = JsonPoints pts.
Proof.
  unfold handler_012, synthetic_reply.
  destruct (grid_bounds s n w e) as [[[gs gn] gw] ge].
  cbv beta iota zeta.
  repeat match goal with
         | |- context [match ?x with _ => _ end] => destruct x
         end;
    intros H; inversion H; eauto.
Qed.

(** Claim C9.  When the upstream call throws, the [part_013] handler
    answers [500 {error: "Failed to fetch grid data"}] for any bounds whose
    padded latitude band is open (so that the grid loop ends with a
    non-empty grid); the [part_012] handler, whenever it answers, answers
    with a points payload. *)
Theorem grid_weather_upstream_throw_500 (s n w e : R) :
  lat_band_open s n ->
  handler_013 (Some s) (Some n) (Some w) (Some e) UpThrows
    = Some (ErrorStatus 500 "Failed to fetch grid data")
  /\ (forall st now up r st',
        handler_012 st now (Some s) (Some n) (Some w) (Some e) up = Some (r, st') ->
        exists pts, r = JsonPoints pts).
Proof.
  intros Hb. split.
  - unfold handler_013.
    destruct (grid_pairs_some 6 8 100 50 s n w e Hb) as (p & ps & ->); try lra; try lia.
    reflexivity.
  - intros st now up r st'. apply handler_012_points.
Qed.

Lemma grid_weather_upstream_throw_500_witness :
  lat_band_open 10 20
  /\ handler_013 (Some 10) (Some 20) (Some 30) (Some 40) UpThrows
     = Some (ErrorStatus 500 "Failed to fetch grid data").
Proof.
  split; [band_tac|].
  apply (grid_weather_upstream_throw_500 10 20 30 40). band_tac.
Defined.




End GridWeatherFacts.

Module LodExtra.
Import Lod JsFacts LodFacts.

Lemma round_IZR (z : Z) : Js.round (IZR z) = z.
Proof.
  unfold Js.round. apply floor_unique. lra.
Qed.

Lemma round_le_IZR (x : R) (z : Z) : x <= IZR z -> IZR (Js.round x) <= IZR z.
Proof. intros H. rewrite <- (round_IZR z). apply round_mono. exact H. Qed.

Lemma round_ge_IZR (x : R) (z : Z) : IZR z <= x -> IZR z <= IZR (Js.round x).
Proof. intros H. rewrite <- (round_IZR z). apply round_mono. exact H. Qed.

Lemma speedScale_eq (zoom : R) :
  speedScale (getZoomParams zoom) = 0.12 * Js.max 0.15 (1 - lod_ease zoom * 0.85).
Proof. reflexivity. Qed.

Lemma trailFade_eq (zoom : R) :
  trailFade (getZoomParams zoom) = Js.min 0.96 (0.92 + lod_ease zoom * 0.04).
Proof. reflexivity. Qed.

Lemma maxAge_eq (zoom : R) :
  maxAge (getZoomParams zoom) = IZR (Js.round (120 * (1 + lod_ease zoom * 0.8))).
Proof. reflexivity. Qed.

Lemma lineWidth_eq (zoom : R) :
  lineWidth (getZoomParams zoom) = Js.max 0.5 (1.0 - lod_ease zoom * 0.5).
Proof. reflexivity. Qed.

Lemma ease_range (z : R) : 0 <= lod_ease z <= 1.
Proof. rewrite ease_t. pose proof (t_range z). nra. Qed.

(** Every zoom level gives parameters within fixed bounds: 150 to 1500
    particles, a speed scale in [[0.018, 0.12]], a trail fade in
    [[0.92, 0.96]], a maximum age of 120 to 216 frames, a line width in
    [[0.5, 1]] and an interpolation radius of 2000 to 100000. *)
Theorem getZoomParams_ranges (zoom : R) :
  let zp := getZoomParams zoom in
  150 <= particleCount zp <= 1500 /\ 0.018 <= speedScale zp <= 0.12
  /\ 0.92 <= trailFade zp <= 0.96 /\ 120 <= maxAge zp <= 216
  /\ 0.5 <= lineWidth zp <= 1 /\ 2000 <= interpRadius zp <= 100000.
Proof.
  cbv zeta. pose proof (ease_range zoom) as He. pose proof (delta_range zoom) as Hd.
  rewrite particleCount_eq, speedScale_eq, trailFade_eq, maxAge_eq, lineWidth_eq,
    interpRadius_eq.
  assert (P1 : IZR (Js.round (1500 * (1 - lod_ease zoom * 0.9))) <= 1500).
  { apply round_le_IZR. nra. }
  assert (M1 : 120 <= IZR (Js.round (120 * (1 + lod_ease zoom * 0.8)))).
  { apply round_ge_IZR. nra. }
  assert (M2 : IZR (Js.round (120 * (1 + lod_ease zoom * 0.8))) <= 216).
  { apply round_le_IZR. nra. }
  assert (R1 : 0 <= IZR (Js.round (lod_delta zoom * lod_delta zoom * 500))).
  { apply round_ge_IZR. nra. }
  assert (R2 : IZR (Js.round (lod_delta zoom * lod_delta zoom * 500)) <= 98000).
  { apply round_le_IZR. nra. }
  minmax; repeat split; lra.
Qed.

(** Zooming in never raises the speed scale or the line width and never
    lowers the trail fade or the maximum particle age. *)
Theorem getZoomParams_monotone_rest (z1 z2 : R) :
  z1 <= z2 ->
  speedScale (getZoomParams z2) <= speedScale (getZoomParams z1)
  /\ trailFade (getZoomParams z1) <= trailFade (getZoomParams z2)
  /\ maxAge (getZoomParams z1) <= maxAge (getZoomParams z2)
  /\ lineWidth (getZoomParams z2) <= lineWidth (getZoomParams z1).
Proof.
  intros H. pose proof (ease_mono z1 z2 H) as He.
  rewrite !speedScale_eq, !trailFade_eq, !maxAge_eq, !lineWidth_eq.
  assert (IZR (Js.round (120 * (1 + lod_ease z1 * 0.8)))
            <= IZR (Js.round (120 * (1 + lod_ease z2 * 0.8))))
    by (apply round_mono; lra).
  minmax; repeat split; lra.
Qed.

Lemma getZoomParams_monotone_rest_witness :
  3 <= 12 /\
  speedScale (getZoomParams 12) <= speedScale (getZoomParams 3)
  /\ trailFade (getZoomParams 3) <= trailFade (getZoomParams 12)
  /\ maxAge (getZoomParams 3) <= maxAge (getZoomParams 12)
  /\ lineWidth (getZoomParams 12) <= lineWidth (getZoomParams 3).
Proof. split; [lra | apply (getZoomParams_monotone_rest 3 12); lra]. Defined.

Lemma delta_low (zoom : R) : zoom <= 4 -> lod_delta zoom = 0.
Proof. intros H. unfold lod_delta, BASE_ZOOM. minmax; lra. Qed.

(** At or below the base zoom 4 the parameters are the base ones:
    1500 particles, speed scale 0.12, trail fade 0.92, maximum age 120,
    line width 1 and radius 2000. *)
Theorem getZoomParams_base_zoom (zoom : R) :
  zoom <= 4 -> getZoomParams zoom = mkZP 1500 0.12 0.92 120 1 2000.
Proof.
  intros H. pose proof (delta_low zoom H) as Hd.
  assert (He : lod_ease zoom = 0) by (unfold lod_ease; rewrite Hd; minmax; lra).
  destruct (getZoomParams zoom) as [pc ss tf ma lw ir] eqn:E.
  pose proof (particleCount_eq zoom) as E1. pose proof (speedScale_eq zoom) as E2.
  pose proof (trailFade_eq zoom) as E3. pose proof (maxAge_eq zoom) as E4.
  pose proof (lineWidth_eq zoom) as E5. pose proof (interpRadius_eq zoom) as E6.
  rewrite E in E1, E2, E3, E4, E5, E6. cbn [particleCount speedScale trailFade
    maxAge lineWidth interpRadius] in *.
  rewrite He in E1, E2, E3, E4, E5. rewrite Hd in E6.
  replace (1500 * (1 - 0 * 0.9)) with (IZR 1500) in E1 by lra.
  replace (120 * (1 + 0 * 0.8)) with (IZR 120) in E4 by lra.
  replace (0 * 0 * 500) with (IZR 0) in E6 by lra.
  rewrite round_IZR in E1, E4, E6.
  f_equal; subst; minmax; lra.
Qed.

Lemma getZoomParams_base_zoom_witness :
  2 <= 4 /\ getZoomParams 2 = mkZP 1500 0.12 0.92 120 1 2000.
Proof. split; [lra | apply getZoomParams_base_zoom; lra]. Defined.

Lemma ease_high (zoom : R) : 10 <= zoom -> lod_ease zoom = 1.
Proof.
  intros H. unfold lod_ease, lod_delta, BASE_ZOOM. minmax; lra.
Qed.

(** From zoom 10 on the eased parameters are saturated (150 particles,
    speed scale 0.018, trail fade 0.96, maximum age 216, line width 0.5);
    from zoom 18 on the radius is too (100000): every zoom above 18 gives
    the parameters of zoom 18. *)
Theorem getZoomParams_saturation (zoom : R) :
  (10 <= zoom ->
   particleCount (getZoomParams zoom) = 150 /\ speedScale (getZoomParams zoom) = 0.018
   /\ trailFade (getZoomParams zoom) = 0.96 /\ maxAge (getZoomParams zoom) = 216
   /\ lineWidth (getZoomParams zoom) = 0.5)
  /\ (18 <= zoom -> getZoomParams zoom = mkZP 150 0.018 0.96 216 0.5 100000).
Proof.
  assert (Hsat : 10 <= zoom ->
   particleCount (getZoomParams zoom) = 150 /\ speedScale (getZoomParams zoom) = 0.018
   /\ trailFade (getZoomParams zoom) = 0.96 /\ maxAge (getZoomParams zoom) = 216
   /\ lineWidth (getZoomParams zoom) = 0.5).
  { intros H. pose proof (ease_high zoom H) as He.
    rewrite particleCount_eq, speedScale_eq, trailFade_eq, maxAge_eq, lineWidth_eq, He.
    replace (1500 * (1 - 1 * 0.9)) with (IZR 150) by lra.
    replace (120 * (1 + 1 * 0.8)) with (IZR 216) by lra.
    rewrite !round_IZR. minmax; repeat split; lra. }
  split; [exact Hsat|].
  intros H. destruct (Hsat ltac:(lra)) as [E1 [E2 [E3 [E4 E5]]]].
  assert (Hd : lod_delta zoom = 14) by (unfold lod_delta, BASE_ZOOM; minmax; lra).
  pose proof (interpRadius_eq zoom) as E6. rewrite Hd in E6.
  replace (14 * 14 * 500) with (IZR 98000) in E6 by lra. rewrite round_IZR in E6.
  destruct (getZoomParams zoom) as [pc ss tf ma lw ir]; cbn in *.
  f_equal; lra.
Qed.

Lemma getZoomParams_saturation_witness :
  getZoomParams 20 = mkZP 150 0.018 0.96 216 0.5 100000.
Proof. apply (proj2 (getZoomParams_saturation 20)); lra. Defined.

End LodExtra.

Module ParticleExtra.
Import Grid Particles ParticleFacts.



Definition sample_pt : GridPoint := mkGP 10 20 5 90 15 None None None.


Definition in_view (W H : R) (p : Particle2D) : Prop :=
  0 <= qx p <= W /\ 0 <= qy p <= H.

Lemma reset2D_in_view (W H : R) rnd k p :
  (forall i, 0 <= rnd i < 1) -> 0 <= W -> 0 <= H ->
  in_view W H (fst (resetParticle2D W H rnd k p)).
Proof.
  intros Hr HW HH. unfold in_view. cbn [fst resetParticle2D qx qy].
  destruct (Hr k), (Hr (S k)). split; split; nra.
Qed.

Lemma step2D_in_view project off points W H rnd k p :
  (forall i, 0 <= rnd i < 1) -> 0 <= W -> 0 <= H ->
  in_view W H (fst (step2D project off points W H rnd k p)).
Proof.
  intros Hr HW HH. unfold step2D.
  destruct (interpolateWind4 project off (qx p) (qy p) points) as [wind|];
    [|apply reset2D_in_view; assumption].
  destruct (Z.ltb _ _); [apply reset2D_in_view; assumption|].
  repeat (destruct (Rlt_dec _ _); [apply reset2D_in_view; assumption|]).
  unfold in_view. cbn [fst qx qy]. lra.
Qed.

Lemma frame2D_in_view project off points W H rnd k ps :
  (forall i, 0 <= rnd i < 1) -> 0 <= W -> 0 <= H ->
  Forall (in_view W H) (fst (frame2D project off points W H rnd k ps)).
Proof.
  intros Hr HW HH. revert k. induction ps as [|p0 rest IH]; intros k; [constructor|].
  simpl.
  destruct (step2D project off points W H rnd k p0) as [p' k1] eqn:E1.
  destruct (frame2D project off points W H rnd k1 rest) as [rest' k2] eqn:E2.
  simpl. constructor.
  - pose proof (step2D_in_view project off points W H rnd k p0 Hr HW HH) as Hs.
    rewrite E1 in Hs. exact Hs.
  - specialize (IH k1). rewrite E2 in IH. exact IH.
Qed.

(** After at least one frame of the 2D fallback every particle lies on
    the canvas ([0 <= x <= width], [0 <= y <= height]) with
    [age <= maxAge], whatever the starting pool and the samples. *)
Theorem frames2D_on_canvas project off points W H rnd (N k : nat) ps :
  (forall i, 0 <= rnd i < 1) -> 0 <= W -> 0 <= H -> (1 <= N)%nat ->
  Forall (fun p => in_view W H p /\ (qage p <= qmaxAge p)%Z)
    (frames2D project off points W H rnd N k ps).
Proof.
  intros Hr HW HH HN. apply Forall_forall. intros p Hin.
  split; [|eapply frames2D_age_ok; eassumption].
  revert k ps Hin. induction N as [|N IH]; intros k ps Hin; [lia|].
  simpl in Hin.
  destruct (frame2D project off points W H rnd k ps) as [ps' k'] eqn:E.
  destruct N as [|N'].
  - simpl in Hin. pose proof (frame2D_in_view project off points W H rnd k ps Hr HW HH) as Hf.
    rewrite E in Hf. rewrite Forall_forall in Hf. apply Hf. exact Hin.
  - eapply IH; [lia| exact Hin].
Qed.

Definition half_draws (_ : nat) : R := 1 / 2.

(** A 100 x 100 canvas with one sample at pixel [(20, 10)] and one
    particle at [(50, 50)]: the particle is advected by the interpolated
    wind and checked against the canvas edges. *)
Lemma frames2D_on_canvas_witness :
  Forall (fun p => in_view 100 100 p /\ (qage p <= qmaxAge p)%Z)
    (frames2D (fun la ln => (ln, la)) (0, 0) [sample_pt] 100 100 half_draws 2 0
       [mkP2 50 50 0 100]).
Proof.
  apply frames2D_on_canvas; [intros i; unfold half_draws; lra | lra | lra | lia].
Defined.

End ParticleExtra.

Module IdwExtra.
Import Idw.

(** [projectGridToScreen] converts km/h to knots and splits the speed
    into a vector of the same length: [u^2 + v^2 = speed^2] with
    [speed = windSpeed * 0.5399]. *)
Theorem screenPointOf_vector_length (pixel offset : R * R) (windSpeed windDir : R) :
  let sp := screenPointOf pixel offset windSpeed windDir in
  su sp * su sp + sv sp * sv sp = sspeed sp * sspeed sp
  /\ sspeed sp = windSpeed * 0.5399.
Proof.
  cbv zeta. unfold screenPointOf. cbn [su sv sspeed]. split; [|reflexivity].
  pose proof (sin2_cos2 (windDir * PI / 180)) as E. unfold Rsqr in E.
  transitivity ((sin (windDir * PI / 180) * sin (windDir * PI / 180)
                + cos (windDir * PI / 180) * cos (windDir * PI / 180))
                * (windSpeed * 0.5399 * (windSpeed * 0.5399))); [ring|].
  rewrite E. ring.
Qed.

Lemma idw_loop_range (x y m2 a b : R) (sps : list ScreenPoint) :
  Forall (fun sp => a <= sspeed sp <= b) sps ->
  forall tw u v s w, 0 <= tw -> a * tw <= s <= b * tw ->
  idw_loop x y m2 sps tw u v s = Some w -> a <= wspeed w <= b.
Proof.
  induction 1 as [|sp rest Hsp Hrest IH]; intros tw u v s w Htw Hs E.
  - cbn [idw_loop] in E. destruct (Req_dec_T tw 0); [discriminate|].
    injection E as <-. cbn [wspeed].
    split; [apply (Rmult_le_reg_r tw) | apply (Rmult_le_reg_r tw)]; try lra;
      unfold Rdiv; rewrite Rmult_assoc, Rinv_l by lra; lra.
  - cbn [idw_loop] in E. cbv zeta in E.
    destruct (Rlt_dec m2 (distSq x y sp)); [eapply IH; eassumption|].
    destruct (Rlt_dec (distSq x y sp) 1) as [Hd|Hd].
    + injection E as <-. exact Hsp.
    + assert (Hw : 0 < 1 / distSq x y sp) by (apply Rdiv_lt_0_compat; lra).
      eapply IH; [| |exact E]; nra.
Qed.

(** When the Leaflet layer's interpolator returns a wind, its speed lies
    within the range of the projected samples' speeds. *)
Theorem interpolateWind_speed_range (x y maxDist a b : R) (sps : list ScreenPoint)
    (w : Wind) :
  Forall (fun sp => a <= sspeed sp <= b) sps ->
  interpolateWind x y sps maxDist = Some w -> a <= wspeed w <= b.
Proof.
  intros Hall E. unfold interpolateWind in E. destruct sps as [|sp rest]; [discriminate|].
  eapply idw_loop_range; [exact Hall| | |exact E]; lra.
Qed.

(** Two screen points 10 pixels apart, of speeds 2 and 4, and a query
    half-way between them. *)
Definition blend_sps : list ScreenPoint := [mkSP 0 0 1 0 2; mkSP 10 0 (-1) 0 4].

Lemma interpolateWind_blend_some : exists w, interpolateWind 5 0 blend_sps 100 = Some w.
Proof.
  unfold interpolateWind, blend_sps. cbn [idw_loop]. cbv zeta.
  unfold distSq. cbn [sx sy su sv sspeed].
  replace ((5 - 0) * (5 - 0) + (0 - 0) * (0 - 0)) with 25 by ring.
  replace ((5 - 10) * (5 - 10) + (0 - 0) * (0 - 0)) with 25 by ring.
  rdec. destruct (Req_dec_T (0 + 1 / 25 + 1 / 25) 0); [lra|]. eauto.
Qed.

Lemma interpolateWind_speed_range_witness :
  Forall (fun sp => 2 <= sspeed sp <= 4) blend_sps
  /\ exists w, interpolateWind 5 0 blend_sps 100 = Some w /\ 2 <= wspeed w <= 4.
Proof.
  assert (Hf : Forall (fun sp => 2 <= sspeed sp <= 4) blend_sps)
    by (repeat constructor; cbn [sspeed]; lra).
  split; [exact Hf|].
  destruct interpolateWind_blend_some as [w E].
  exists w. split; [exact E|].
  exact (interpolateWind_speed_range 5 0 100 2 4 blend_sps w Hf E).
Defined.

End IdwExtra.

Module WindFieldExtra.
Import Grid WindField WindFieldFacts.

Lemma raster_length (h w : nat) (f : nat -> nat -> R) :
  List.length (raster h w f) = (h * w)%nat.
Proof.
  unfold raster. rewrite <- (length_seq h 0) at 2.
  induction (seq 0 h) as [|y ys IH]; [reflexivity|].
  cbn [flat_map List.length]. rewrite length_app, length_map, length_seq, IH. lia.
Qed.

(** The three arrays of [buildWindField] each hold one value per grid
    node: [width * height] entries, [width = resolution] and
    [height = Math.round(resolution * 0.6)]. *)
Lemma buildWindField_shape (points : list GridPoint) (bounds : Bounds) (res : nat) :
  let F := buildWindField points bounds res in
  width F = res /\ height F = field_height res
  /\ List.length (uField F) = (width F * height F)%nat
  /\ List.length (vField F) = (width F * height F)%nat
  /\ List.length (speedField F) = (width F * height F)%nat.
Proof.
  cbv zeta. unfold buildWindField. cbn [width height uField vField speedField].
  rewrite !raster_length. repeat split; lia.
Qed.

Lemma raster_Forall (P : R -> Prop) (h w : nat) (f : nat -> nat -> R) :
  (forall x y, P (f x y)) -> Forall P (raster h w f).
Proof.
  intros Hf. unfold raster. apply Forall_forall. intros r Hr.
  apply in_flat_map in Hr as [y [_ Hy]]. apply in_map_iff in Hy as [x [<- _]].
  apply Hf.
Qed.

(** The weighted sums of one grid node stay between [a] and [b] (for
    [u]) and [c] and [d] (for [v]) times the total weight. *)
Lemma cell_loop_range (lat0 lon a b c d : R) (pts : list GridPoint) :
  Forall (fun pt => a <= windU pt <= b /\ c <= windV pt <= d) pts ->
  forall tw u v, 0 <= tw -> a * tw <= u <= b * tw -> c * tw <= v <= d * tw ->
  (pts <> [] \/ 0 < tw) ->
  let '(tw', u', v') := cell_loop lat0 lon pts tw u v in
  0 < tw' /\ a * tw' <= u' <= b * tw' /\ c * tw' <= v' <= d * tw'.
Proof.
  induction 1 as [|pt rest Hpt Hrest IH]; intros tw u v Htw Hu Hv Hne.
  - destruct Hne as [Hne|Hne]; [congruence|]. cbn [cell_loop]. lra.
  - cbn [cell_loop]. cbv zeta.
    match goal with |- context [Rlt_dec ?e 0.01] => destruct (Rlt_dec e 0.01) as [Hd|Hd] end.
    + lra.
    + match goal with |- context [1 / (?e * ?e)] => set (d2 := e) in * end.
      assert (Hw : 0 < 1 / (d2 * d2)).
      { apply Rdiv_lt_0_compat; [lra|]. apply Rmult_lt_0_compat; lra. }
      apply IH; [lra| nra | nra |right; lra].
Qed.

Lemma div_range (a b s tw : R) : 0 < tw -> a * tw <= s <= b * tw -> a <= s / tw <= b.
Proof.
  intros Htw Hs.
  split; [apply (Rmult_le_reg_r tw) | apply (Rmult_le_reg_r tw)]; try lra;
    unfold Rdiv; rewrite Rmult_assoc, Rinv_l by lra; lra.
Qed.

Lemma cell_range (points : list GridPoint) (bounds : Bounds) (w h x y : nat) (a b c d : R) :
  points <> [] ->
  Forall (fun pt => a <= windU pt <= b /\ c <= windV pt <= d) points ->
  a <= fst (cell points bounds w h x y) <= b /\ c <= snd (cell points bounds w h x y) <= d.
Proof.
  intros Hne Hall. unfold cell. cbv zeta.
  pose proof (cell_loop_range (node_lat bounds h y) (node_lon bounds w x) a b c d points
                Hall 0 0 0 ltac:(lra) ltac:(lra) ltac:(lra) (or_introl Hne)) as Hl.
  destruct (cell_loop _ _ points 0 0 0) as [[tw u] v].
  destruct Hl as [Htw [Hu Hv]].
  destruct (Rlt_dec 0 tw); [|lra]. cbn [fst snd].
  split; apply div_range; assumption.
Qed.

Lemma field_height_ge_2 (res : nat) : (3 <= res)%nat -> (2 <= field_height res)%nat.
Proof.
  intros H. unfold field_height.
  assert (H3 : INR 3 <= INR res) by (apply le_INR; exact H).
  replace (INR 3) with 3 in H3 by (simpl; lra).
  assert (H2 : (Js.floor (IZR 2) <= Js.round (INR res * 0.6))%Z).
  { unfold Js.round. apply JsFacts.floor_mono. lra. }
  rewrite floor_IZR in H2. lia.
Qed.

(** With a non-empty sample set (and at least 3 columns, so that both
    axes have two nodes and no [0 / 0] arises), every node of the
    rasterised field holds a [u] within the samples' [u] range and a [v]
    within their [v] range: the interpolation never overshoots. *)
Lemma field_within (points : list GridPoint) (bounds : Bounds) (res : nat) (a b c d : R) :
  points <> [] ->
  Forall (fun pt => a <= windU pt <= b /\ c <= windV pt <= d) points ->
  Forall (fun u => a <= u <= b) (uField (buildWindField points bounds res))
  /\ Forall (fun v => c <= v <= d) (vField (buildWindField points bounds res)).
Proof.
  intros Hne Hall. unfold buildWindField. cbn [uField vField].
  split; apply raster_Forall; intros x y; apply (cell_range points bounds _ _ x y a b c d);
    assumption.
Qed.

Theorem buildWindField_within_samples (points : list GridPoint) (bounds : Bounds)
    (res : nat) (a b c d : R) :
  points <> [] -> (3 <= res)%nat ->
  Forall (fun pt => a <= windU pt <= b /\ c <= windV pt <= d) points ->
  Forall (fun u => a <= u <= b) (uField (buildWindField points bounds res))
  /\ Forall (fun v => c <= v <= d) (vField (buildWindField points bounds res)).
Proof. intros Hne _ Hall. apply field_within; assumption. Qed.

(** A third sample, with a wind from the east (90 degrees). *)
Definition rt_E : GridPoint := mkGP 70 3 10 90 20 None None None.

Lemma rt_E_wind : windU rt_E = -10 /\ windV rt_E = 0.
Proof.
  unfold windU, windV, rt_E. cbn [windDir windSpeed].
  replace (90 * PI / 180) with (PI / 2) by field. rewrite sin_PI2, cos_PI2. split; ring.
Qed.

Lemma three_samples_range :
  Forall (fun pt => -10 <= windU pt <= 0 /\ -10 <= windV pt <= 10) [rt_A; rt_B; rt_E].
Proof.
  destruct rt_A_wind as [A1 A2]. destruct rt_B_wind as [B1 B2].
  destruct rt_E_wind as [E1 E2].
  repeat constructor; lra.
Qed.

Lemma buildWindField_within_samples_witness :
  [rt_A; rt_B; rt_E] <> [] /\ (3 <= 120)%nat /\
  Forall (fun pt => -10 <= windU pt <= 0 /\ -10 <= windV pt <= 10) [rt_A; rt_B; rt_E] /\
  Forall (fun u => -10 <= u <= 0) (uField (buildWindField [rt_A; rt_B; rt_E] rt_bounds 120))
  /\ Forall (fun v => -10 <= v <= 10) (vField (buildWindField [rt_A; rt_B; rt_E] rt_bounds 120)).
Proof.
  assert (Hne : [rt_A; rt_B; rt_E] <> []) by discriminate.
  split; [exact Hne|]. split; [lia|]. split; [exact three_samples_range|].
  apply buildWindField_within_samples; [exact Hne | lia | exact three_samples_range].
Defined.

(** The bilinear blend of four values is a convex combination. *)
Lemma bil_lower (a dx dy A B C D : R) :
  0 <= dx <= 1 -> 0 <= dy <= 1 -> a <= A -> a <= B -> a <= C -> a <= D ->
  a <= (1 - dx) * (1 - dy) * A + dx * (1 - dy) * B + (1 - dx) * dy * C + dx * dy * D.
Proof.
  intros Hx Hy HA HB HC HD.
  assert (0 <= (1 - dx) * (1 - dy) * (A - a)) by (repeat apply Rmult_le_pos; lra).
  assert (0 <= dx * (1 - dy) * (B - a)) by (repeat apply Rmult_le_pos; lra).
  assert (0 <= (1 - dx) * dy * (C - a)) by (repeat apply Rmult_le_pos; lra).
  assert (0 <= dx * dy * (D - a)) by (repeat apply Rmult_le_pos; lra).
  nra.
Qed.

Lemma bil_upper (b dx dy A B C D : R) :
  0 <= dx <= 1 -> 0 <= dy <= 1 -> A <= b -> B <= b -> C <= b -> D <= b ->
  (1 - dx) * (1 - dy) * A + dx * (1 - dy) * B + (1 - dx) * dy * C + dx * dy * D <= b.
Proof.
  intros Hx Hy HA HB HC HD.
  assert (0 <= (1 - dx) * (1 - dy) * (b - A)) by (repeat apply Rmult_le_pos; lra).
  assert (0 <= dx * (1 - dy) * (b - B)) by (repeat apply Rmult_le_pos; lra).
  assert (0 <= (1 - dx) * dy * (b - C)) by (repeat apply Rmult_le_pos; lra).
  assert (0 <= dx * dy * (b - D)) by (repeat apply Rmult_le_pos; lra).
  nra.
Qed.

Lemma clamp_index (i n : Z) : (1 <= n)%Z -> (0 <= Z.max 0 (Z.min i (n - 1)) <= n - 1)%Z.
Proof. lia. Qed.

Lemma index_lt (x y w h : Z) (W H : nat) :
  w = Z.of_nat W -> h = Z.of_nat H -> (0 <= x <= w - 1)%Z -> (0 <= y <= h - 1)%Z ->
  (Z.to_nat (y * w + x) < W * H)%nat.
Proof.
  intros -> -> Hx Hy.
  assert (0 <= y * Z.of_nat W + x < Z.of_nat H * Z.of_nat W)%Z by nia.
  apply Nat2Z.inj_lt. rewrite Z2Nat.id by lia. rewrite Nat2Z.inj_mul. lia.
Qed.

Lemma nth_Forall (P : R -> Prop) (l : list R) (i : nat) :
  Forall P l -> (i < List.length l)%nat -> P (nth i l 0).
Proof.
  intros Hf Hi. rewrite Forall_forall in Hf. apply Hf. apply nth_In. exact Hi.
Qed.

Lemma fract_01 (x : R) : 0 <= x - IZR (Js.floor x) <= 1.
Proof. pose proof (JsFacts.floor_spec x). lra. Qed.

Lemma sample_within (fld : WindField) (normX normY : R) (a b c d e : R) :
  (1 <= width fld)%nat -> (1 <= height fld)%nat ->
  List.length (uField fld) = (width fld * height fld)%nat ->
  List.length (vField fld) = (width fld * height fld)%nat ->
  List.length (speedField fld) = (width fld * height fld)%nat ->
  Forall (fun u => a <= u <= b) (uField fld) ->
  Forall (fun v => c <= v <= d) (vField fld) ->
  Forall (fun s => e <= s) (speedField fld) ->
  let smp := sampleWindField fld normX normY in
  a <= su smp <= b /\ c <= sv smp <= d /\ e <= sspeed smp
  /\ (forall f, Forall (fun s => s <= f) (speedField fld) -> sspeed smp <= f).
Proof.
  intros Hw Hh Lu Lv Ls Fu Fv Fs. cbv zeta. unfold sampleWindField. cbv zeta.
  cbn [su sv sspeed].
  pose proof (fract_01 (normX * (INR (width fld) - 1))) as Dx.
  pose proof (fract_01 (normY * (INR (height fld) - 1))) as Dy.
  set (W := Z.of_nat (width fld)). set (H := Z.of_nat (height fld)).
  assert (HW : (1 <= W)%Z) by lia. assert (HH : (1 <= H)%Z) by lia.
  set (ix := Js.floor (normX * (INR (width fld) - 1))).
  set (iy := Js.floor (normY * (INR (height fld) - 1))).
  pose proof (clamp_index ix W HW). pose proof (clamp_index (ix + 1) W HW).
  pose proof (clamp_index iy H HH). pose proof (clamp_index (iy + 1) H HH).
  assert (I00 : (Z.to_nat (Z.max 0 (Z.min iy (H - 1)) * W + Z.max 0 (Z.min ix (W - 1)))
                 < width fld * height fld)%nat) by (eapply index_lt; eauto).
  assert (I10 : (Z.to_nat (Z.max 0 (Z.min iy (H - 1)) * W + Z.max 0 (Z.min (ix + 1) (W - 1)))
                 < width fld * height fld)%nat) by (eapply index_lt; eauto).
  assert (I01 : (Z.to_nat (Z.max 0 (Z.min (iy + 1) (H - 1)) * W + Z.max 0 (Z.min ix (W - 1)))
                 < width fld * height fld)%nat) by (eapply index_lt; eauto).
  assert (I11 : (Z.to_nat (Z.max 0 (Z.min (iy + 1) (H - 1)) * W
                           + Z.max 0 (Z.min (ix + 1) (W - 1)))
                 < width fld * height fld)%nat) by (eapply index_lt; eauto).
  rewrite <- Lu in I00, I10, I01, I11 at 1.
  pose proof (nth_Forall _ _ _ Fu I00) as U00. pose proof (nth_Forall _ _ _ Fu I10) as U10.
  pose proof (nth_Forall _ _ _ Fu I01) as U01. pose proof (nth_Forall _ _ _ Fu I11) as U11.
  rewrite Lu, <- Lv in I00, I10, I01, I11.
  pose proof (nth_Forall _ _ _ Fv I00) as V00. pose proof (nth_Forall _ _ _ Fv I10) as V10.
  pose proof (nth_Forall _ _ _ Fv I01) as V01. pose proof (nth_Forall _ _ _ Fv I11) as V11.
  rewrite Lv, <- Ls in I00, I10, I01, I11.
  pose proof (nth_Forall _ _ _ Fs I00) as S00. pose proof (nth_Forall _ _ _ Fs I10) as S10.
  pose proof (nth_Forall _ _ _ Fs I01) as S01. pose proof (nth_Forall _ _ _ Fs I11) as S11.
  cbv beta in *.
  split; [|split; [|split]].
  - split; [apply bil_lower | apply bil_upper]; first [exact Dx | exact Dy | lra].
  - split; [apply bil_lower | apply bil_upper]; first [exact Dx | exact Dy | lra].
  - apply bil_lower; first [exact Dx | exact Dy | lra].
  - intros f Ff.
    pose proof (nth_Forall _ _ _ Ff I00) as T00. pose proof (nth_Forall _ _ _ Ff I10) as T10.
    pose proof (nth_Forall _ _ _ Ff I01) as T01. pose proof (nth_Forall _ _ _ Ff I11) as T11.
    cbv beta in *.
    apply bil_upper; first [exact Dx | exact Dy | lra].
Qed.

(** Sampling a well-formed field ([width * height] entries per array,
    both dimensions at least 1) returns [u], [v] and speed values within
    the range of the stored values, for every query, including queries
    outside the field: out-of-range indices are clamped to the border. *)
Theorem sampleWindField_within_field (fld : WindField) (normX normY : R)
    (a b c d e f : R) :
  (1 <= width fld)%nat -> (1 <= height fld)%nat ->
  List.length (uField fld) = (width fld * height fld)%nat ->
  List.length (vField fld) = (width fld * height fld)%nat ->
  List.length (speedField fld) = (width fld * height fld)%nat ->
  Forall (fun u => a <= u <= b) (uField fld) ->
  Forall (fun v => c <= v <= d) (vField fld) ->
  Forall (fun s => e <= s <= f) (speedField fld) ->
  let smp := sampleWindField fld normX normY in
  a <= su smp <= b /\ c <= sv smp <= d /\ e <= sspeed smp <= f.
Proof.
  intros Hw Hh Lu Lv Ls Fu Fv Fs. cbv zeta.
  assert (Fe : Forall (fun s => e <= s) (speedField fld))
    by (eapply Forall_impl; [|exact Fs]; intros x Hx; cbv beta in Hx; lra).
  assert (Ff : Forall (fun s => s <= f) (speedField fld))
    by (eapply Forall_impl; [|exact Fs]; intros x Hx; cbv beta in Hx; lra).
  destruct (sample_within fld normX normY a b c d e Hw Hh Lu Lv Ls Fu Fv Fe)
    as [Hu [Hv [He Hf]]].
  split; [exact Hu|]. split; [exact Hv|]. split; [exact He | exact (Hf f Ff)].
Qed.

(** A 2 x 2 field with four different values in each array. *)
Definition mixed_field : WindField :=
  mkWF 2 2 [0; 4; 2; 6] [-1; 1; -3; 3] [1; 5; 3; 7].

Lemma sampleWindField_within_field_witness :
  let smp := sampleWindField mixed_field (1 / 4) (3 / 4) in
  0 <= su smp <= 6 /\ -3 <= sv smp <= 3 /\ 1 <= sspeed smp <= 7.
Proof.
  apply (sampleWindField_within_field mixed_field (1 / 4) (3 / 4) 0 6 (-3) 3 1 7);
    [cbn; lia | cbn; lia | reflexivity | reflexivity | reflexivity
    | repeat constructor; lra | repeat constructor; lra | repeat constructor; lra].
Defined.

(** Composition of the two: sampling the field built from a non-empty
    sample set (with non-degenerate bounds and at least 3 columns) at
    any geographic point, inside the view or not, gives a [u] within the
    samples' [u] range, a [v] within their [v] range and a non-negative
    speed. *)
Theorem sampleAt_buildWindField_within_samples (points : list GridPoint)
    (bounds : Bounds) (res : nat) (a b c d lat0 lng0 : R) :
  points <> [] -> (3 <= res)%nat ->
  west bounds < east bounds -> south bounds < north bounds ->
  Forall (fun pt => a <= windU pt <= b /\ c <= windV pt <= d) points ->
  let smp := sampleAt (buildWindField points bounds res) bounds lat0 lng0 in
  a <= su smp <= b /\ c <= sv smp <= d /\ 0 <= sspeed smp.
Proof.
  intros Hne Hres _ _ Hall. cbv zeta. unfold sampleAt. cbv zeta.
  pose proof (buildWindField_shape points bounds res) as L. cbv zeta in L.
  destruct L as [Ew [Eh [Lu [Lv Ls]]]].
  destruct (field_within points bounds res a b c d Hne Hall) as [Fu Fv].
  pose proof (field_height_ge_2 res Hres).
  assert (Fs : Forall (fun s => 0 <= s) (speedField (buildWindField points bounds res))).
  { unfold buildWindField. cbn [speedField]. apply raster_Forall. intros. apply sqrt_pos. }
  destruct (sample_within (buildWindField points bounds res)
              ((lng0 - west bounds) / (east bounds - west bounds))
              ((north bounds - lat0) / (north bounds - south bounds)) a b c d 0)
    as [Hu [Hv [Hs _]]]; try assumption; try lia.
  split; [exact Hu|]. split; [exact Hv | exact Hs].
Qed.

Lemma sampleAt_buildWindField_within_samples_witness :
  let smp := sampleAt (buildWindField [rt_A; rt_B; rt_E] rt_bounds 120) rt_bounds 30 60 in
  -10 <= su smp <= 0 /\ -10 <= sv smp <= 10 /\ 0 <= sspeed smp.
Proof.
  apply (sampleAt_buildWindField_within_samples [rt_A; rt_B; rt_E] rt_bounds 120
           (-10) 0 (-10) 10);
    [discriminate | lia | cbn; lra | cbn; lra | exact three_samples_range].
Defined.

End WindFieldExtra.

Module GridStoreExtra.
Import Grid GridStore.

Lemma delay_range (n : nat) : 5000 <= Rmin (5000 * 2 ^ n) 30000 <= 30000.
Proof.
  pose proof (pow_R1_Rle 2 n ltac:(lra)).
  unfold Rmin. destruct (Rle_dec _ _); lra.
Qed.

(** What one call does to the counter and the timer, from a state with
    no pending timer. *)
Lemma fetch_retry_step (b : bool) (key : string) (r : Response) (st : RetryState) :
  retryTimer st = None ->
  let st1 := fetchGridData_retry b key r st in
  (retryTimer st1 = None /\ retryCount st1 <= retryCount st)%nat
  \/ (exists d, retryTimer st1 = Some d /\ 5000 <= d <= 30000
        /\ retryCount st1 = S (retryCount st) /\ (retryCount st < 3)%nat)
  \/ (retryTimer st1 = None /\ retryCount st1 = 0%nat).
Proof.
  intros Ht. cbv zeta. unfold fetchGridData_retry.
  destruct (negb b && String.eqb key (lastBounds st)); [left; split; [exact Ht | lia]|].
  assert (Hs : (retryCount st < 3)%nat ->
    exists d, retryTimer (scheduleRetry (mkRS (points st) (retryCount st) key (retryTimer st)))
                = Some d /\ 5000 <= d <= 30000
      /\ retryCount (scheduleRetry (mkRS (points st) (retryCount st) key (retryTimer st)))
         = S (retryCount st) /\ (retryCount st < 3)%nat).
  { intros Hlt. eexists. cbn [scheduleRetry retryTimer retryCount]. split; [reflexivity|].
    replace (S (retryCount st) - 1)%nat with (retryCount st) by lia.
    split; [apply delay_range | split; [reflexivity | exact Hlt]]. }
  destruct r as [data|status|]; cbv zeta; cbn [lastBounds points retryCount retryTimer].
  - destruct (Nat.ltb 0 (List.length (points_or_empty data))).
    + right; right. split; [exact Ht | reflexivity].
    + destruct (Nat.ltb (retryCount st) 3) eqn:E.
      * right; left. apply Hs. apply Nat.ltb_lt. exact E.
      * left. cbn. split; [exact Ht | lia].
  - destruct ((status =? 429)%Z && Nat.ltb (retryCount st) 3) eqn:E.
    + right; left. apply Hs. apply andb_true_iff in E as [_ E]. apply Nat.ltb_lt. exact E.
    + left. cbn. split; [exact Ht | lia].
  - left. cbn. split; [exact Ht | lia].
Qed.

(** The retrying loader keeps [retryCount <= 3], and a pending retry
    is always scheduled 5 to 30 seconds ahead. *)
Theorem run_retry_bounded (key : string) (resps : list Response) (b : bool)
    (st : RetryState) :
  (retryCount st <= 3)%nat ->
  let st' := run_retry key resps b st in
  (retryCount st' <= 3)%nat
  /\ (resps <> [] -> retryTimer st' = None
                     \/ exists d, retryTimer st' = Some d /\ 5000 <= d <= 30000).
Proof.
  revert b st. induction resps as [|r rest IH]; intros b st Hc; cbv zeta.
  - split; [exact Hc | congruence].
  - cbn [run_retry].
    set (st0 := mkRS (points st) (retryCount st) (lastBounds st) None).
    pose proof (fetch_retry_step b key r st0 eq_refl) as Hs. cbv zeta in Hs.
    cbn [retryCount st0] in Hs.
    destruct (retryTimer (fetchGridData_retry b key r st0)) as [d|] eqn:Et.
    + destruct Hs as [[Hn _]|[[d' [Hd [Hr [Hc1 Hlt]]]]|[Hn _]]]; try congruence.
      destruct rest as [|r' rest'].
      * cbn [run_retry]. split; [lia|]. intros _. right. exists d'. split; [congruence | exact Hr].
      * destruct (IH true (fetchGridData_retry b key r st0) ltac:(lia)) as [H1 H2].
        split; [exact H1|]. intros _. apply H2. congruence.
    + split; [destruct Hs as [[_ Hle]|[[d' [Hd [_ [Hc1 _]]]]|[_ H0]]]; first [congruence | lia]|].
      intros _. left. exact Et.
Qed.

Definition some_point : GridPoint := mkGP 10 20 5 90 15 None None None.

Lemma run_retry_bounded_witness :
  let st' := run_retry key0 [NotOk 429; Throws] false (mkRS [] 0 ""%string None) in
  (retryCount st' <= 3)%nat
  /\ ([NotOk 429; Throws] <> [] -> retryTimer st' = None
                     \/ exists d, retryTimer st' = Some d /\ 5000 <= d <= 30000).
Proof. apply run_retry_bounded. cbn. lia. Defined.

(** One bounds change issues at most four requests (the first call and
    three retries): from a state with [retryCount = c <= 3], only the
    first [4 - c] answers are ever used. *)
Theorem run_retry_at_most_four (key : string) (resps : list Response) (b : bool)
    (st : RetryState) :
  (retryCount st <= 3)%nat ->
  run_retry key resps b st = run_retry key (firstn (4 - retryCount st) resps) b st.
Proof.
  revert b st. induction resps as [|r rest IH]; intros b st Hc.
  - rewrite firstn_nil. reflexivity.
  - replace (4 - retryCount st)%nat with (S (3 - retryCount st)) by lia.
    cbn [firstn run_retry].
    set (st0 := mkRS (points st) (retryCount st) (lastBounds st) None).
    pose proof (fetch_retry_step b key r st0 eq_refl) as Hs. cbv zeta in Hs.
    cbn [retryCount st0] in Hs.
    destruct (retryTimer (fetchGridData_retry b key r st0)) as [d|] eqn:Et; [|reflexivity].
    destruct Hs as [[Hn _]|[[d' [Hd [Hr [Hc1 Hlt]]]]|[Hn _]]]; try congruence.
    rewrite (IH true (fetchGridData_retry b key r st0)) by lia. rewrite Hc1.
    replace (4 - S (retryCount st))%nat with (3 - retryCount st)%nat by lia.
    reflexivity.
Qed.

Lemma run_retry_at_most_four_witness :
  run_retry key0 [NotOk 429; NotOk 429; NotOk 429; NotOk 429; NotOk 429] false
    (mkRS [] 0 ""%string None)
  = run_retry key0 (firstn (4 - 0) [NotOk 429; NotOk 429; NotOk 429; NotOk 429; NotOk 429])
      false (mkRS [] 0 ""%string None).
Proof. apply (run_retry_at_most_four key0 _ false (mkRS [] 0 ""%string None)). cbn. lia. Defined.

Lemma fetch_retry_keeps_points (b : bool) (key : string) (r : Response) (st : RetryState) :
  points st <> [] -> points (fetchGridData_retry b key r st) <> [].
Proof.
  intros Hp. unfold fetchGridData_retry.
  destruct (negb b && String.eqb key (lastBounds st)); [exact Hp|].
  destruct r as [data|status|]; cbv zeta.
  - destruct (Nat.ltb 0 (List.length (points_or_empty data))) eqn:E.
    + cbn [points]. apply Nat.ltb_lt in E. intros H0. rewrite H0 in E. cbn in E. lia.
    + destruct (Nat.ltb _ 3); exact Hp.
  - destruct (_ && _); exact Hp.
  - exact Hp.
Qed.

(** The retrying loader never replaces a non-empty sample set by an
    empty one, whatever the server answers. *)
Theorem run_retry_keeps_points (key : string) (resps : list Response) (b : bool)
    (st : RetryState) :
  points st <> [] -> points (run_retry key resps b st) <> [].
Proof.
  revert b st. induction resps as [|r rest IH]; intros b st Hp; cbn [run_retry]; [exact Hp|].
  assert (H1 : points (fetchGridData_retry b key r
                 (mkRS (points st) (retryCount st) (lastBounds st) None)) <> [])
    by (apply fetch_retry_keeps_points; exact Hp).
  destruct (retryTimer _); [apply IH|]; exact H1.
Qed.

Lemma run_retry_keeps_points_witness :
  points (run_retry key0 [empty_response; Throws] false (mkRS [some_point] 0 ""%string None))
    <> [].
Proof. apply run_retry_keeps_points. cbn. discriminate. Defined.

End GridStoreExtra.

Module GridWeatherExtra.
Import Grid GridWeather GridWeatherFacts.

(** The padded request box of the endpoint: it contains the requested
    longitudes and spans [max(east - west, 12)] degrees of longitude; its
    latitudes stay in [[-90, 90]] and contain the requested ones that
    lie there. *)
Theorem grid_bounds_padding (s n w e : R) :
  let '(gs, gn, gw, ge) := grid_bounds s n w e in
  gw <= w /\ e <= ge /\ ge - gw = Rmax (e - w) 12
  /\ -90 <= gs /\ gn <= 90 /\ (-90 <= s -> gs <= s) /\ (n <= 90 -> n <= gn).
Proof.
  unfold grid_bounds. cbv zeta. unfold Js.max, Js.min, Rmax, Rmin.
  repeat match goal with |- context [Rle_dec ?a ?b] => destruct (Rle_dec a b) end;
    repeat split; intros; lra.
Qed.

(** The synthetic generator ends on a box of positive height and width. *)
Lemma synthetic_total (s n w e now : R) :
  s < n -> w < e -> exists pts, generateSyntheticWindData s n w e now = Some pts.
Proof.
  intros Hs Hw. unfold generateSyntheticWindData. cbv zeta.
  apply for_range_total; [lra|]. intros lat.
  apply for_range_total; [lra|]. eauto.
Qed.

Lemma rate_limited_same (st : Server) (now : R) (south north west east : option R)
    (up1 up2 : Upstream) :
  now < gridRateLimitUntil st ->
  handler_012 st now south north west east up1 = handler_012 st now south north west east up2.
Proof.
  intros Hl. unfold handler_012.
  destruct south as [s|], north as [n|], west as [w|], east as [e|]; try reflexivity.
  destruct (grid_bounds s n w e) as [[[gs gn] gw] ge].
  destruct (grid_pairs 5 7 10 35 s n w e) as [[|p ps]|]; try reflexivity.
  cbv zeta.
  destruct (gridWeatherCache st (p :: ps)) as [[d ts]|];
    [destruct (Rlt_dec (now - ts) GRID_CACHE_TTL); [reflexivity|]|];
    (destruct (Rlt_dec now (gridRateLimitUntil st)); [reflexivity|lra]).
Qed.

(** While the rate limit is active the handler does not depend on the
    upstream answer: reply and new state are the same whatever the
    weather service would have answered. *)
Theorem handler_012_rate_limited_ignores_upstream (st : Server) (now : R)
    (south north west east : option R) (up1 up2 : Upstream) :
  now < gridRateLimitUntil st ->
  handler_012 st now south north west east up1 = handler_012 st now south north west east up2.
Proof. apply rate_limited_same. Qed.

Definition limited_server : Server := mkServer (fun _ => None) None 100.

Lemma handler_012_rate_limited_ignores_upstream_witness :
  handler_012 limited_server 50 (Some 10) (Some 20) (Some 30) (Some 40) UpThrows
  = handler_012 limited_server 50 (Some 10) (Some 20) (Some 30) (Some 40)
      (Answer (WeatherObject north_wind_weather) (MarineObject partial_marine)).
Proof. apply handler_012_rate_limited_ignores_upstream. cbn. lra. Defined.

(** On a cache miss outside the rate limit, an error object from the
    weather service is answered (from the fallbacks) with the rate limit
    set to [now + 60000]. *)
Lemma handler_012_error_reply (st : Server) (now s n w e : R) (md : MarineData) :
  lat_band_open s n ->
  (forall key, grid_pairs 5 7 10 35 s n w e = Some key -> gridWeatherCache st key = None) ->
  gridRateLimitUntil st <= now ->
  exists r, handler_012 st now (Some s) (Some n) (Some w) (Some e) (Answer WeatherError md)
            = Some (r, mkServer (gridWeatherCache st) (lastGoodGridData st) (now + 60000)).
Proof.
  intros Hb Hc Hl.
  destruct (grid_pairs_some 5 7 10 35 s n w e Hb) as (p & ps & Ep); try lra; try lia.
  unfold handler_012.
  destruct (grid_bounds s n w e) as [[[gs gn] gw] ge] eqn:EB.
  pose proof (band_bounds s n w e Hb) as Hg. rewrite EB in Hg. destruct Hg as [Hg1 Hg2].
  rewrite Ep. cbv zeta. rewrite (Hc _ Ep).
  destruct (Rlt_dec now (gridRateLimitUntil st)); [lra|].
  cbn beta iota. cbn [lastGoodGridData].
  destruct (lastGoodGridData st) as [[d ts]|]; [eauto|].
  unfold synthetic_reply.
  destruct (synthetic_total gs gn gw ge now Hg1 Hg2) as [pts ->]. eauto.
Qed.

Definition empty_server : Server := mkServer (fun _ => None) None 0.

(** An error object from the weather service (on a cache miss, outside
    the rate limit) is answered and sets the rate limit to [now + 60000]:
    for the next 60 seconds no request of any bounds depends on the
    upstream answer. *)
Theorem handler_012_error_sets_rate_limit (st : Server) (now s n w e : R)
    (md : MarineData) :
  lat_band_open s n ->
  (forall key, grid_pairs 5 7 10 35 s n w e = Some key -> gridWeatherCache st key = None) ->
  gridRateLimitUntil st <= now ->
  exists r st',
    handler_012 st now (Some s) (Some n) (Some w) (Some e) (Answer WeatherError md)
      = Some (r, st')
    /\ gridRateLimitUntil st' = now + 60000
    /\ (forall now' south' north' west' east' up1 up2, now' < now + 60000 ->
          handler_012 st' now' south' north' west' east' up1
          = handler_012 st' now' south' north' west' east' up2).
Proof.
  intros Hb Hc Hl.
  destruct (handler_012_error_reply st now s n w e md Hb Hc Hl) as [r Er].
  exists r, (mkServer (gridWeatherCache st) (lastGoodGridData st) (now + 60000)).
  split; [exact Er|]. split; [reflexivity|].
  intros now' south' north' west' east' up1 up2 Hnow.
  apply rate_limited_same. cbn. exact Hnow.
Qed.

Lemma handler_012_error_sets_rate_limit_witness :
  lat_band_open 10 20
  /\ exists r st',
    handler_012 empty_server 1000 (Some 10) (Some 20) (Some 30) (Some 40)
      (Answer WeatherError (MarineObject partial_marine)) = Some (r, st')
    /\ gridRateLimitUntil st' = 1000 + 60000
    /\ (forall now' south' north' west' east' up1 up2, now' < 1000 + 60000 ->
          handler_012 st' now' south' north' west' east' up1
          = handler_012 st' now' south' north' west' east' up2).
Proof.
  split; [band_tac|].
  apply handler_012_error_sets_rate_limit; [band_tac | intros; reflexivity | cbn; lra].
Defined.

Lemma handler_012_success (st : Server) (now s n w e : R) (wd : WeatherData)
    (md : MarineData) (p : R * R) (ps : list (R * R)) :
  grid_pairs 5 7 10 35 s n w e = Some (p :: ps) -> wd <> WeatherError ->
  gridWeatherCache st (p :: ps) = None ->
  gridRateLimitUntil st <= now ->
  let pts := build_points (weatherArr wd) (marineArr md) in
  handler_012 st now (Some s) (Some n) (Some w) (Some e) (Answer wd md)
  = Some (JsonPoints pts,
          mkServer (cache_set (gridWeatherCache st) (p :: ps) (pts, now))
            (Some (pts, now)) (gridRateLimitUntil st)).
Proof.
  intros Ep Hwd Hc Hl. cbv zeta. unfold handler_012.
  destruct (grid_bounds s n w e) as [[[gs gn] gw] ge].
  rewrite Ep. cbv zeta. rewrite Hc.
  destruct (Rlt_dec now (gridRateLimitUntil st)); [lra|].
  destruct wd; [congruence | reflexivity | reflexivity].
Qed.

(** Cache round trip: after a successful upstream answer for some
    bounds, the same bounds requested again within the cache lifetime
    (10 minutes) get the same points back and leave the state as it is,
    whatever the upstream would answer then. *)
Theorem handler_012_cache_roundtrip (st : Server) (now now' s n w e : R)
    (wd : WeatherData) (md : MarineData) (up' : Upstream) :
  lat_band_open s n -> wd <> WeatherError ->
  (forall key, grid_pairs 5 7 10 35 s n w e = Some key -> gridWeatherCache st key = None) ->
  gridRateLimitUntil st <= now ->
  now' - now < GRID_CACHE_TTL ->
  let pts := build_points (weatherArr wd) (marineArr md) in
  exists st',
    handler_012 st now (Some s) (Some n) (Some w) (Some e) (Answer wd md)
      = Some (JsonPoints pts, st')
    /\ handler_012 st' now' (Some s) (Some n) (Some w) (Some e) up'
      = Some (JsonPoints pts, st').
Proof.
  intros Hb Hwd Hc Hl Ht. cbv zeta.
  destruct (grid_pairs_some 5 7 10 35 s n w e Hb) as (p & ps & Ep); try lra; try lia.
  eexists. split; [exact (handler_012_success st now s n w e wd md p ps Ep Hwd (Hc _ Ep) Hl)|].
  unfold handler_012 at 1.
  destruct (grid_bounds s n w e) as [[[gs gn] gw] ge].
  rewrite Ep. cbv zeta. cbn [gridWeatherCache]. unfold cache_set.
  destruct (list_eq_dec pair_eq_dec (p :: ps) (p :: ps)) as [_|NE]; [|congruence].
  destruct (Rlt_dec (now' - now) GRID_CACHE_TTL); [reflexivity | lra].
Qed.

Lemma handler_012_cache_roundtrip_witness :
  lat_band_open 10 20
  /\ exists st',
    handler_012 empty_server 1000 (Some 10) (Some 20) (Some 30) (Some 40)
      (Answer (WeatherObject north_wind_weather) (MarineObject partial_marine))
      = Some (JsonPoints (build_points (weatherArr (WeatherObject north_wind_weather))
                            (marineArr (MarineObject partial_marine))), st')
    /\ handler_012 st' 2000 (Some 10) (Some 20) (Some 30) (Some 40) UpThrows
      = Some (JsonPoints (build_points (weatherArr (WeatherObject north_wind_weather))
                            (marineArr (MarineObject partial_marine))), st').
Proof.
  split; [band_tac|].
  apply (handler_012_cache_roundtrip empty_server 1000 2000 10 20 30 40);
    [band_tac | discriminate | intros; reflexivity | cbn; lra | unfold GRID_CACHE_TTL; lra].
Defined.

(** The last good answer is the fallback of a failed upstream call: after
    a successful answer, a later request outside the rate limit whose
    bounds had no cache entry before and whose upstream call throws gets
    the same points and leaves the state as it is, even when its bounds
    cover another region. *)
Theorem handler_012_throw_serves_last_good (st : Server) (now s n w e : R)
    (wd : WeatherData) (md : MarineData) (now' s' n' w' e' : R) :
  lat_band_open s n -> wd <> WeatherError ->
  (forall key, grid_pairs 5 7 10 35 s n w e = Some key -> gridWeatherCache st key = None) ->
  gridRateLimitUntil st <= now -> gridRateLimitUntil st <= now' ->
  lat_band_open s' n' ->
  (forall key, grid_pairs 5 7 10 35 s' n' w' e' = Some key -> gridWeatherCache st key = None) ->
  let pts := build_points (weatherArr wd) (marineArr md) in
  exists st',
    handler_012 st now (Some s) (Some n) (Some w) (Some e) (Answer wd md)
      = Some (JsonPoints pts, st')
    /\ handler_012 st' now' (Some s') (Some n') (Some w') (Some e') UpThrows
      = Some (JsonPoints pts, st').
Proof.
  intros Hb Hwd Hc Hl Hl' Hb' Hc'. cbv zeta.
  destruct (grid_pairs_some 5 7 10 35 s n w e Hb) as (p & ps & Ep); try lra; try lia.
  destruct (grid_pairs_some 5 7 10 35 s' n' w' e' Hb') as (q & qs & Eq); try lra; try lia.
  eexists. split; [exact (handler_012_success st now s n w e wd md p ps Ep Hwd (Hc _ Ep) Hl)|].
  unfold handler_012.
  destruct (grid_bounds s' n' w' e') as [[[gs gn] gw] ge].
  rewrite Eq. cbv zeta. cbn [gridWeatherCache gridRateLimitUntil lastGoodGridData].
  unfold cache_set.
  destruct (list_eq_dec pair_eq_dec (q :: qs) (p :: ps)) as [E|_].
  - destruct (Rlt_dec (now' - now) GRID_CACHE_TTL); [reflexivity|].
    destruct (Rlt_dec now' (gridRateLimitUntil st)); [lra|]. reflexivity.
  - rewrite (Hc' _ Eq).
    destruct (Rlt_dec now' (gridRateLimitUntil st)); [lra|]. reflexivity.
Qed.

Lemma handler_012_throw_serves_last_good_witness :
  lat_band_open 10 20 /\ lat_band_open (-40) (-30)
  /\ exists st',
    handler_012 empty_server 1000 (Some 10) (Some 20) (Some 30) (Some 40)
      (Answer (WeatherObject north_wind_weather) (MarineObject partial_marine))
      = Some (JsonPoints (build_points (weatherArr (WeatherObject north_wind_weather))
                            (marineArr (MarineObject partial_marine))), st')
    /\ handler_012 st' 5000 (Some (-40)) (Some (-30)) (Some 100) (Some 110) UpThrows
      = Some (JsonPoints (build_points (weatherArr (WeatherObject north_wind_weather))
                            (marineArr (MarineObject partial_marine))), st').
Proof.
  split; [band_tac|]. split; [band_tac|].
  apply (handler_012_throw_serves_last_good empty_server 1000 10 20 30 40
           (WeatherObject north_wind_weather) (MarineObject partial_marine)
           5000 (-40) (-30) 100 110);
    [band_tac | discriminate | intros; reflexivity | cbn; lra | cbn; lra | band_tac
    | intros; reflexivity].
Defined.

Lemma round_to_10_ge (v : R) (z : Z) : IZR z / 10 <= v -> IZR z / 10 <= round_to 10 v.
Proof.
  intros H. unfold round_to.
  assert (IZR z <= IZR (Js.round (v * 10))) by (apply LodExtra.round_ge_IZR; lra).
  lra.
Qed.

Lemma round_to_10_le (v : R) (z : Z) : v <= IZR z / 10 -> round_to 10 v <= IZR z / 10.
Proof.
  intros H. unfold round_to.
  assert (IZR (Js.round (v * 10)) <= IZR z) by (apply LodExtra.round_le_IZR; lra).
  lra.
Qed.

Lemma synth_point_ranges (t lat lng : R) :
  let pt := synth_point t lat lng in
  2 <= windSpeed pt <= 45
  /\ (forall h, waveHeight pt = Some h -> 0.2 <= h)
  /\ (forall p, wavePeriod pt = Some p -> 4 <= p).
Proof.
  cbv zeta. unfold synth_point. cbv zeta. cbn [windSpeed waveHeight wavePeriod].
  set (ws := Js.max 2 (Js.min 45 _)).
  assert (Hws : 2 <= ws <= 45) by (unfold ws, Js.max, Js.min, Rmax, Rmin;
    repeat destruct (Rle_dec _ _); lra).
  split; [split|].
  { pose proof (round_to_10_ge ws 20 ltac:(lra)). lra. }
  { pose proof (round_to_10_le ws 450 ltac:(lra)). lra. }
  destruct (Rlt_dec (Rabs lat) 60); [|split; intros ? E; discriminate E].
  split; intros h E; unfold truthy_map in E;
    (destruct (Req_dec_T _ 0); [discriminate E|]); injection E as <-.
  - match goal with |- _ <= round_to 10 ?x => set (hv := x) end.
    assert (0.2 <= hv) by (unfold hv, Js.max, Rmax; destruct (Rle_dec _ _); lra).
    pose proof (round_to_10_ge hv 2 ltac:(lra)). lra.
  - match goal with |- _ <= round_to 10 ?x => set (pv := x) end.
    assert (4 <= pv) by (unfold pv, Js.max, Rmax; destruct (Rle_dec _ _); lra).
    pose proof (round_to_10_ge pv 40 ltac:(lra)). lra.
Qed.

(** Every synthetic sample has a wind speed between 2 and 45 km/h, a
    wave height of at least 0.2 m and a wave period of at least 4 s
    when they are present (after rounding to one decimal). *)
Theorem synthetic_points_ranges (s n w e now : R) (pts : list GridPoint) :
  generateSyntheticWindData s n w e now = Some pts ->
  Forall (fun pt =>
    2 <= windSpeed pt <= 45
    /\ (forall h, waveHeight pt = Some h -> 0.2 <= h)
    /\ (forall p, wavePeriod pt = Some p -> 4 <= p)) pts.
Proof.
  intros H. unfold generateSyntheticWindData in H. cbv zeta in H.
  refine (for_range_Forall _ _ _ _ _ _ _ H). intros lat l1 H1.
  refine (for_range_Forall _ _ _ _ _ _ _ H1). intros lng l2 H2.
  injection H2 as <-. constructor; [apply synth_point_ranges | constructor].
Qed.

Lemma synthetic_points_ranges_witness :
  exists pts, generateSyntheticWindData 0 10 0 14 0 = Some pts
  /\ Forall (fun pt =>
       2 <= windSpeed pt <= 45
       /\ (forall h, waveHeight pt = Some h -> 0.2 <= h)
       /\ (forall p, wavePeriod pt = Some p -> 4 <= p)) pts.
Proof.
  destruct (synthetic_total 0 10 0 14 0) as [pts E]; [lra | lra |].
  exists pts. split; [exact E | exact (synthetic_points_ranges 0 10 0 14 0 pts E)].
Defined.

End GridWeatherExtra.

Module HashExtra.
Import Hash.
Open Scope Z_scope.

Lemma toInt32_shift (x k : Z) : toInt32 (x + k * 2 ^ 32) = toInt32 x.
Proof.
  unfold toInt32.
  replace (x + k * 2 ^ 32 + 2 ^ 31) with (x + 2 ^ 31 + k * 2 ^ 32) by ring.
  rewrite Z_mod_plus_full. reflexivity.
Qed.

Lemma toInt32_repr (x : Z) : exists k, toInt32 x = x + k * 2 ^ 32.
Proof.
  exists (- ((x + 2 ^ 31) / 2 ^ 32)). unfold toInt32.
  rewrite Z.mod_eq by lia. ring.
Qed.

Lemma toInt32_range (x : Z) : -2 ^ 31 <= toInt32 x < 2 ^ 31.
Proof.
  unfold toInt32. pose proof (Z.mod_pos_bound (x + 2 ^ 31) (2 ^ 32) ltac:(lia)). lia.
Qed.

Lemma seedHash_step (acc c : Z) :
  toInt32 (shl5 (toInt32 acc) - toInt32 acc + c) = toInt32 (31 * acc + c).
Proof.
  destruct (toInt32_repr acc) as [k1 E1].
  unfold shl5. rewrite Z.shiftl_mul_pow2 by lia.
  assert (Id : toInt32 (toInt32 acc) = toInt32 acc) by (rewrite E1 at 1; apply toInt32_shift).
  rewrite Id, E1.
  replace ((acc + k1 * 2 ^ 32) * 2 ^ 5) with (acc * 2 ^ 5 + (k1 * 2 ^ 5) * 2 ^ 32) by ring.
  rewrite toInt32_shift.
  destruct (toInt32_repr (acc * 2 ^ 5)) as [k2 E2]. rewrite E2.
  replace (acc * 2 ^ 5 + k2 * 2 ^ 32 - (acc + k1 * 2 ^ 32) + c)
    with (31 * acc + c + (k2 - k1) * 2 ^ 32) by ring.
  apply toInt32_shift.
Qed.

Lemma seedHash_loop_poly (codes : list Z) :
  forall acc, seedHash_loop codes (toInt32 acc) = toInt32 (poly31 codes acc).
Proof.
  induction codes as [|c rest IH]; intros acc; [reflexivity|].
  cbn [seedHash_loop poly31]. rewrite seedHash_step. apply IH.
Qed.

(** The hash loop computes the polynomial hash
    [sum s[i] * 31^(n-1-i)] reduced to a signed 32-bit integer: [| 0]
    after every step loses nothing modulo [2^32], and the result lies in
    [[-2^31, 2^31)]. *)
Theorem seedHash_polynomial (codes : list Z) :
  seedHash_string codes = toInt32 (poly31 codes 0)
  /\ -2 ^ 31 <= seedHash_string codes < 2 ^ 31.
Proof.
  assert (E : seedHash_string codes = toInt32 (poly31 codes 0)).
  { unfold seedHash_string. change 0 with (toInt32 0) at 1. apply seedHash_loop_poly. }
  split; [exact E|]. rewrite E. apply toInt32_range.
Qed.

End HashExtra.

Module MercatorExtra.
Import Mercator.

(** [invMercY] undoes [mercY] up to its clamp: the round trip returns
    the latitude clamped to [[-85.05112878, 85.05112878]]. *)
Theorem invMercY_mercY (latDeg : R) :
  invMercY (mercY latDeg) = Js.max (-85.05112878) (Js.min 85.05112878 latDeg).
Proof.
  unfold mercY. cbv zeta.
  set (c := Js.max (-85.05112878) (Js.min 85.05112878 latDeg)).
  assert (Hc : -85.05112878 <= c <= 85.05112878)
    by (unfold c, Js.max, Js.min, Rmax, Rmin; repeat destruct (Rle_dec _ _); lra).
  pose proof PI_RGT_0 as Hpi.
  set (y := PI / 4 + Js.degToRad c / 2).
  assert (Hy : 0 < y < PI / 2).
  { unfold y, Js.degToRad. split.
    - assert (c * PI / 180 / 2 > - (PI / 4)).
      { apply (Rmult_lt_reg_r 360); [lra|]. field_simplify. nra. }
      lra.
    - assert (c * PI / 180 / 2 < PI / 4).
      { apply (Rmult_lt_reg_r 360); [lra|]. field_simplify. nra. }
      lra. }
  unfold invMercY. rewrite exp_ln by (apply tan_gt_0; lra).
  rewrite atan_tan by lra.
  unfold y, Js.degToRad. field. lra.
Qed.

End MercatorExtra.

Module WindTextureExtra.
Import Grid Mercator WindTexture.

Lemma fold_min_spec (l : list R) :
  forall m, exists m', fold_left upd_min l (Some m) = Some m'
    /\ m' <= m /\ Forall (fun y => m' <= y) l.
Proof.
  induction l as [|x rest IH]; intros m; cbn [fold_left].
  - exists m. split; [reflexivity|]. split; [lra|constructor].
  - unfold upd_min at 2.
    destruct (Rlt_dec x m) as [Hx|Hx].
    + destruct (IH x) as [m' [E [H1 H2]]].
      exists m'. split; [exact E|]. split; [lra|]. constructor; [lra| exact H2].
    + destruct (IH m) as [m' [E [H1 H2]]].
      exists m'. split; [exact E|]. split; [lra|]. constructor; [lra| exact H2].
Qed.

Lemma fold_max_spec (l : list R) :
  forall m, exists m', fold_left upd_max l (Some m) = Some m'
    /\ m <= m' /\ Forall (fun y => y <= m') l.
Proof.
  induction l as [|x rest IH]; intros m; cbn [fold_left].
  - exists m. split; [reflexivity|]. split; [lra|constructor].
  - unfold upd_max at 2.
    destruct (Rlt_dec m x) as [Hx|Hx].
    + destruct (IH x) as [m' [E [H1 H2]]].
      exists m'. split; [exact E|]. split; [lra|]. constructor; [lra| exact H2].
    + destruct (IH m) as [m' [E [H1 H2]]].
      exists m'. split; [exact E|]. split; [lra|]. constructor; [lra| exact H2].
Qed.

Lemma fold_min_None (l : list R) : l <> [] -> exists m, fold_left upd_min l None = Some m
  /\ Forall (fun y => m <= y) l.
Proof.
  destruct l as [|x rest]; [congruence|]. intros _. cbn [fold_left upd_min].
  destruct (fold_min_spec rest x) as [m [E [H1 H2]]]. exists m.
  split; [exact E|]. constructor; [exact H1|exact H2].
Qed.

Lemma fold_max_None (l : list R) : l <> [] -> exists m, fold_left upd_max l None = Some m
  /\ Forall (fun y => y <= m) l.
Proof.
  destruct l as [|x rest]; [congruence|]. intros _. cbn [fold_left upd_max].
  destruct (fold_max_spec rest x) as [m [E [H1 H2]]]. exists m.
  split; [exact E|]. constructor; [exact H1|exact H2].
Qed.

Lemma widen_spec (lo hi : R) (l : list R) :
  l <> [] -> Forall (fun y => lo <= y) l -> Forall (fun y => y <= hi) l ->
  fst (widen lo hi) < snd (widen lo hi)
  /\ Forall (fun y => fst (widen lo hi) <= y <= snd (widen lo hi)) l.
Proof.
  intros Hne Hlo Hhi. destruct l as [|x rest]; [congruence|].
  pose proof (Forall_inv Hlo). pose proof (Forall_inv Hhi).
  unfold widen. destruct (Req_dec_T lo hi) as [E|E]; cbn [fst snd].
  - split; [lra|]. apply Forall_forall. intros y Hy.
    rewrite Forall_forall in Hlo, Hhi. specialize (Hlo y Hy). specialize (Hhi y Hy). lra.
  - split; [lra|]. apply Forall_forall. intros y Hy.
    rewrite Forall_forall in Hlo, Hhi. split; auto.
Qed.

(** What a successful encoding is made of. *)
Lemma encode_some (gp : list GridPoint) (south north west east : R) (tw th : nat)
    (d : WindData) :
  encodeWindToTexture gp south north west east tw th = Some d ->
  gp <> [] /\ uMin d < uMax d /\ vMin d < vMax d
  /\ Forall (fun pt => uMin d <= tex_u pt <= uMax d /\ vMin d <= tex_v pt <= vMax d) gp
  /\ twidth d = tw /\ theight d = th
  /\ mercNorth d = mercY north /\ mercSouth d = mercY south
  /\ pixels d = flat_map (fun ty => flat_map (fun tx =>
       let '(uInterp, vInterp) :=
         texel_uv gp west east (mercNorth d) (mercSouth d) tw th tx ty in
       [byte_of ((uInterp - uMin d) / (uMax d - uMin d));
        byte_of ((vInterp - vMin d) / (vMax d - vMin d)); 0%Z; 255%Z])
       (seq 0 tw)) (seq 0 th).
Proof.
  intros E. destruct gp as [|pt rest] eqn:Egp; [discriminate E|].
  rewrite <- Egp in *. assert (Hne : gp <> []) by (rewrite Egp; discriminate).
  assert (Hu : map tex_u gp <> []) by (rewrite Egp; discriminate).
  assert (Hv : map tex_v gp <> []) by (rewrite Egp; discriminate).
  unfold encodeWindToTexture in E.
  destruct (fold_min_None _ Hu) as [u0 [E1 F1]]. destruct (fold_max_None _ Hu) as [u1 [E2 F2]].
  destruct (fold_min_None _ Hv) as [v0 [E3 F3]]. destruct (fold_max_None _ Hv) as [v1 [E4 F4]].
  rewrite E1, E2, E3, E4 in E.
  destruct (widen_spec u0 u1 _ Hu F1 F2) as [Wu Fu].
  destruct (widen_spec v0 v1 _ Hv F3 F4) as [Wv Fv].
  destruct (widen u0 u1) as [uMin0 uMax0]. destruct (widen v0 v1) as [vMin0 vMax0].
  cbn [fst snd] in *. injection E as <-. cbn.
  split; [exact Hne|]. split; [exact Wu|]. split; [exact Wv|].
  split; [|repeat split; reflexivity].
  apply Forall_forall. intros q Hq.
  rewrite Forall_forall in Fu, Fv.
  split; [apply Fu | apply Fv]; apply in_map; exact Hq.
Qed.

Lemma encode_nonempty (gp : list GridPoint) (south north west east : R) (tw th : nat) :
  gp <> [] -> exists d, encodeWindToTexture gp south north west east tw th = Some d.
Proof.
  intros Hne.
  assert (Hu : map tex_u gp <> []) by (destruct gp; [congruence|discriminate]).
  assert (Hv : map tex_v gp <> []) by (destruct gp; [congruence|discriminate]).
  unfold encodeWindToTexture.
  destruct (fold_min_None _ Hu) as [u0 [E1 _]]. destruct (fold_max_None _ Hu) as [u1 [E2 _]].
  destruct (fold_min_None _ Hv) as [v0 [E3 _]]. destruct (fold_max_None _ Hv) as [v1 [E4 _]].
  rewrite E1, E2, E3, E4.
  destruct (widen u0 u1). destruct (widen v0 v1). eexists. reflexivity.
Qed.

Lemma flat_map_nth_block {A : Type} (g : A -> list Z) (k : nat) (l : list A) (a0 : A) :
  (forall x, List.length (g x) = k) ->
  forall i j, (i < List.length l)%nat -> (j < k)%nat ->
  nth (i * k + j) (flat_map g l) 0%Z = nth j (g (nth i l a0)) 0%Z.
Proof.
  intros Hg. induction l as [|x rest IH]; intros i j Hi Hj; [cbn in Hi; lia|].
  cbn [flat_map]. destruct i as [|i].
  - cbn [nth]. rewrite app_nth1 by (rewrite Hg; lia). f_equal.
  - rewrite app_nth2 by (rewrite Hg; lia). rewrite Hg.
    replace (S i * k + j - k)%nat with (i * k + j)%nat by lia.
    cbn [nth]. apply IH; [cbn in Hi; lia | exact Hj].
Qed.

Lemma flat_map_length_block {A : Type} (g : A -> list Z) (k : nat) (l : list A) :
  (forall x, List.length (g x) = k) -> List.length (flat_map g l) = (List.length l * k)%nat.
Proof.
  intros Hg. induction l as [|x rest IH]; [reflexivity|].
  cbn [flat_map]. rewrite length_app, Hg, IH. cbn [List.length]. lia.
Qed.

(** The texel list is [texHeight] rows of [texWidth] texels of 4 bytes:
    byte [4 * (ty * texWidth + tx) + j] is byte [j] of texel [(tx, ty)]. *)
Lemma texels_nth (f : nat -> nat -> list Z) (tw th tx ty j : nat) :
  (forall x y, List.length (f x y) = 4%nat) -> (tx < tw)%nat -> (ty < th)%nat -> (j < 4)%nat ->
  nth ((ty * tw + tx) * 4 + j)
    (flat_map (fun ty => flat_map (fun tx => f tx ty) (seq 0 tw)) (seq 0 th)) 0%Z
  = nth j (f tx ty) 0%Z.
Proof.
  intros Hf Hx Hy Hj.
  assert (Hrow : forall y, List.length (flat_map (fun tx => f tx y) (seq 0 tw)) = (tw * 4)%nat).
  { intros y. rewrite (flat_map_length_block _ 4) by (intros; apply Hf). rewrite length_seq. lia. }
  replace ((ty * tw + tx) * 4 + j)%nat with (ty * (tw * 4) + (tx * 4 + j))%nat by lia.
  rewrite (flat_map_nth_block _ (tw * 4) _ 0%nat Hrow) by (rewrite ?length_seq; lia).
  rewrite seq_nth by lia.
  rewrite (flat_map_nth_block _ 4 _ 0%nat) by (intros; apply Hf || (rewrite ?length_seq; lia)).
  rewrite seq_nth by lia. reflexivity.
Qed.

Lemma tex_loop_range (lat0 lon a b c d : R) (pts : list GridPoint) :
  Forall (fun pt => a <= tex_u pt <= b /\ c <= tex_v pt <= d) pts ->
  forall tw u v, 0 <= tw -> a * tw <= u <= b * tw -> c * tw <= v <= d * tw ->
  (pts <> [] \/ 0 < tw) ->
  let '(tw', u', v') := tex_loop lat0 lon pts tw u v in
  0 < tw' /\ a * tw' <= u' <= b * tw' /\ c * tw' <= v' <= d * tw'.
Proof.
  induction 1 as [|pt rest Hpt Hrest IH]; intros tw u v Htw Hu Hv Hne.
  - destruct Hne as [Hne|Hne]; [congruence|]. cbn [tex_loop]. lra.
  - cbn [tex_loop]. cbv zeta.
    match goal with |- context [Rlt_dec ?e 0.01] => destruct (Rlt_dec e 0.01) as [Hd|Hd] end.
    + lra.
    + match goal with |- context [1 / ?e] => set (d2 := e) in * end.
      assert (Hw : 0 < 1 / d2) by (apply Rdiv_lt_0_compat; lra).
      apply IH; [lra| nra | nra |right; lra].
Qed.

Lemma texel_uv_range (gp : list GridPoint) (west east mN mS : R) (tw th tx ty : nat)
    (a b c d : R) :
  gp <> [] -> Forall (fun pt => a <= tex_u pt <= b /\ c <= tex_v pt <= d) gp ->
  a <= fst (texel_uv gp west east mN mS tw th tx ty) <= b
  /\ c <= snd (texel_uv gp west east mN mS tw th tx ty) <= d.
Proof.
  intros Hne Hall. unfold texel_uv. cbv zeta.
  match goal with |- context [tex_loop ?la ?lo gp 0 0 0] =>
    pose proof (tex_loop_range la lo a b c d gp Hall 0 0 0 ltac:(lra) ltac:(lra) ltac:(lra)
                  (or_introl Hne)) as Hl;
    destruct (tex_loop la lo gp 0 0 0) as [[tw' u] v] end.
  destruct Hl as [Htw [Hu Hv]].
  destruct (Rlt_dec 0 tw'); [|lra]. cbn [fst snd].
  split; apply WindFieldExtra.div_range; assumption.
Qed.

(** One byte of the texture and its decoding [mix(lo, hi, byte / 255)]
    in the update shader. *)
Lemma byte_quantization (lo hi x : R) :
  lo < hi -> lo <= x <= hi ->
  (0 <= byte_of ((x - lo) / (hi - lo)) <= 255)%Z
  /\ Rabs (Js.mix lo hi (IZR (byte_of ((x - lo) / (hi - lo))) / 255) - x) <= (hi - lo) / 510.
Proof.
  intros Hlh Hx.
  set (t := (x - lo) / (hi - lo)).
  assert (Ht : 0 <= t <= 1).
  { unfold t. split.
    - apply Rmult_le_pos; [lra | apply Rlt_le, Rinv_0_lt_compat; lra].
    - apply (Rmult_le_reg_r (hi - lo)); [lra|]. unfold Rdiv.
      rewrite Rmult_assoc, Rinv_l by lra. lra. }
  assert (Hxt : x = lo + (hi - lo) * t) by (unfold t; field; lra).
  unfold byte_of. replace (Js.max 0 (Js.min 1 t)) with t
    by (unfold Js.max, Js.min, Rmax, Rmin; repeat destruct (Rle_dec _ _); lra).
  pose proof (JsFacts.floor_spec (t * 255 + / 2)) as [F1 F2]. unfold Js.round.
  set (r := Js.floor (t * 255 + / 2)) in *.
  split.
  - assert (IZR (-1) < IZR r) by lra. assert (IZR r < IZR 256) by lra.
    apply lt_IZR in H. apply lt_IZR in H0. lia.
  - unfold Js.mix. rewrite Hxt.
    replace (lo * (1 - IZR r / 255) + hi * (IZR r / 255) - (lo + (hi - lo) * t))
      with ((hi - lo) / 255 * (IZR r - 255 * t)) by (field; lra).
    rewrite Rabs_mult, Rabs_pos_eq by (apply Rmult_le_pos; lra).
    assert (Rabs (IZR r - 255 * t) <= / 2)
      by (unfold Rabs; destruct (Rcase_abs _); lra).
    apply (Rle_trans _ ((hi - lo) / 255 * / 2)); [apply Rmult_le_compat_l; lra | lra].
Qed.

(** A non-empty sample set always encodes: the value ranges are proper
    ([uMin < uMax], [vMin < vMax], widened by 1 each side when all
    samples agree) and hold every sample's [(u, v)]; the texture has
    [4 * texWidth * texHeight] bytes. *)
Theorem encodeWindToTexture_ranges (gp : list GridPoint) (south north west east : R)
    (tw th : nat) :
  gp <> [] ->
  exists d, encodeWindToTexture gp south north west east tw th = Some d
  /\ uMin d < uMax d /\ vMin d < vMax d
  /\ Forall (fun pt => uMin d <= tex_u pt <= uMax d /\ vMin d <= tex_v pt <= vMax d) gp
  /\ List.length (pixels d) = (4 * tw * th)%nat.
Proof.
  intros Hne. destruct (encode_nonempty gp south north west east tw th Hne) as [d E].
  exists d. split; [exact E|].
  destruct (encode_some _ _ _ _ _ _ _ d E) as [_ [Hu [Hv [Hall [_ [_ [_ [_ Hp]]]]]]]].
  split; [exact Hu|]. split; [exact Hv|]. split; [exact Hall|].
  rewrite Hp. rewrite (flat_map_length_block _ (tw * 4)), length_seq; [lia|].
  intros y. rewrite (flat_map_length_block _ 4), length_seq; [lia|].
  intros x. destruct (texel_uv _ _ _ _ _ _ _ _ _). reflexivity.
Qed.

Lemma encodeWindToTexture_ranges_witness :
  [ParticleExtra.sample_pt] <> [] /\
  exists d, encodeWindToTexture [ParticleExtra.sample_pt] 0 20 10 30 2 2 = Some d
  /\ uMin d < uMax d /\ vMin d < vMax d
  /\ Forall (fun pt => uMin d <= tex_u pt <= uMax d /\ vMin d <= tex_v pt <= vMax d)
       [ParticleExtra.sample_pt]
  /\ List.length (pixels d) = (4 * 2 * 2)%nat.
Proof.
  split; [discriminate|]. apply encodeWindToTexture_ranges. discriminate.
Defined.

(** Round trip of the wind texture: the red and green bytes of every
    texel, decoded as the update shader does ([mix(u_wind_min,
    u_wind_max, byte / 255)]), give the texel's interpolated [u] and [v]
    within half a quantisation step, [(uMax - uMin) / 510]; blue is 0
    and alpha 255. *)
Theorem encodeWindToTexture_texel_roundtrip (gp : list GridPoint)
    (south north west east : R) (tw th tx ty : nat) (d : WindData) :
  encodeWindToTexture gp south north west east tw th = Some d ->
  (tx < tw)%nat -> (ty < th)%nat ->
  let uv := texel_uv gp west east (mercNorth d) (mercSouth d) tw th tx ty in
  let idx := ((ty * tw + tx) * 4)%nat in
  (0 <= nth idx (pixels d) 0 <= 255)%Z /\ (0 <= nth (idx + 1) (pixels d) 0 <= 255)%Z
  /\ nth (idx + 2) (pixels d) 0%Z = 0%Z /\ nth (idx + 3) (pixels d) 0%Z = 255%Z
  /\ Rabs (Js.mix (uMin d) (uMax d) (IZR (nth idx (pixels d) 0%Z) / 255) - fst uv)
       <= (uMax d - uMin d) / 510
  /\ Rabs (Js.mix (vMin d) (vMax d) (IZR (nth (idx + 1) (pixels d) 0%Z) / 255) - snd uv)
       <= (vMax d - vMin d) / 510.
Proof.
  intros E Hx Hy. cbv zeta.
  destruct (encode_some _ _ _ _ _ _ _ d E) as [Hne [Hu [Hv [Hall [_ [_ [_ [_ Hp]]]]]]]].
  destruct (texel_uv_range gp west east (mercNorth d) (mercSouth d) tw th tx ty
              (uMin d) (uMax d) (vMin d) (vMax d) Hne Hall) as [Ru Rv].
  set (f := fun tx0 ty0 =>
        let '(uInterp, vInterp) :=
          texel_uv gp west east (mercNorth d) (mercSouth d) tw th tx0 ty0 in
        [byte_of ((uInterp - uMin d) / (uMax d - uMin d));
         byte_of ((vInterp - vMin d) / (vMax d - vMin d)); 0%Z; 255%Z]).
  assert (Hf : forall x y, List.length (f x y) = 4%nat)
    by (intros x y; unfold f; destruct (texel_uv _ _ _ _ _ _ _ x y); reflexivity).
  assert (Hp' : pixels d =
    flat_map (fun ty0 => flat_map (fun tx0 => f tx0 ty0) (seq 0 tw)) (seq 0 th))
    by (rewrite Hp; reflexivity).
  rewrite Hp'.
  assert (N : forall j, (j < 4)%nat ->
    nth ((ty * tw + tx) * 4 + j)
      (flat_map (fun ty0 => flat_map (fun tx0 => f tx0 ty0) (seq 0 tw)) (seq 0 th)) 0%Z
    = nth j (f tx ty) 0%Z) by (intros j Hj; apply texels_nth; assumption).
  pose proof (N 0%nat ltac:(lia)) as N0. rewrite Nat.add_0_r in N0.
  rewrite N0, (N 1%nat ltac:(lia)), (N 2%nat ltac:(lia)), (N 3%nat ltac:(lia)).
  unfold f. destruct (texel_uv gp west east (mercNorth d) (mercSouth d) tw th tx ty)
    as [uI vI] eqn:Euv.
  cbn [fst snd] in Ru, Rv. cbn [nth fst snd].
  destruct (byte_quantization (uMin d) (uMax d) uI Hu Ru) as [B1 Q1].
  destruct (byte_quantization (vMin d) (vMax d) vI Hv Rv) as [B2 Q2].
  repeat split; first [lia | assumption].
Qed.

Lemma encodeWindToTexture_texel_roundtrip_witness :
  match encodeWindToTexture [ParticleExtra.sample_pt] 0 20 10 30 2 2 with
  | Some d =>
      let uv := texel_uv [ParticleExtra.sample_pt] 10 30 (mercNorth d) (mercSouth d) 2 2 1 0 in
      let idx := ((0 * 2 + 1) * 4)%nat in
      (0 <= nth idx (pixels d) 0 <= 255)%Z /\ (0 <= nth (idx + 1) (pixels d) 0 <= 255)%Z
      /\ nth (idx + 2) (pixels d) 0%Z = 0%Z /\ nth (idx + 3) (pixels d) 0%Z = 255%Z
      /\ Rabs (Js.mix (uMin d) (uMax d) (IZR (nth idx (pixels d) 0%Z) / 255) - fst uv)
           <= (uMax d - uMin d) / 510
      /\ Rabs (Js.mix (vMin d) (vMax d) (IZR (nth (idx + 1) (pixels d) 0%Z) / 255) - snd uv)
           <= (vMax d - vMin d) / 510
  | None => False
  end.
Proof.
  destruct (encodeWindToTexture [ParticleExtra.sample_pt] 0 20 10 30 2 2) as [d|] eqn:E.
  - apply (encodeWindToTexture_texel_roundtrip _ 0 20 10 30 2 2 1 0 d E); lia.
  - destruct (encode_nonempty [ParticleExtra.sample_pt] 0 20 10 30 2 2 ltac:(discriminate))
      as [d' E']. congruence.
Defined.

End WindTextureExtra.

Module StatePackingExtra.
Import Shader StatePacking.

Lemma clamp01_range (x : R) : 0 <= Js.clamp x 0 1 <= 1.
Proof. unfold Js.clamp, Rmax, Rmin. destruct (Rle_dec x 0); destruct (Rle_dec _ 1); lra. Qed.

(** One coordinate: [fract(p * 255)] in red (or green) and
    [floor(p * 255) / 255] in blue (or alpha), stored as bytes and read
    back as [r / 255 + b]. *)
Lemma coord_roundtrip (p : R) :
  0 <= p <= 1 ->
  Rabs (unorm8 (Js.fract (p * 255)) / 255 + unorm8 (IZR (Js.floor (p * 255)) / 255) - p)
    <= / 130050.
Proof.
  intros Hp.
  pose proof (JsFacts.floor_spec (p * 255)) as [F1 F2].
  set (F := Js.floor (p * 255)) in *.
  assert (HF : (0 <= F <= 255)%Z).
  { assert (IZR (-1) < IZR F) by lra. assert (IZR F < IZR 256) by lra.
    apply lt_IZR in H. apply lt_IZR in H0. lia. }
  assert (HF' : 0 <= IZR F <= 255) by (split; [apply IZR_le | apply IZR_le]; lia).
  pose proof (ShaderFacts.fract_range (p * 255)) as Hf.
  assert (Ef : Js.fract (p * 255) = p * 255 - IZR F) by reflexivity.
  unfold unorm8. rewrite !ShaderFacts.clamp_in by (lra || (split; lra)).
  replace (IZR F / 255 * 255) with (IZR F) by field.
  rewrite LodExtra.round_IZR.
  rewrite Ef in *.
  unfold Js.round.
  pose proof (JsFacts.floor_spec ((p * 255 - IZR F) * 255 + / 2)) as [G1 G2].
  set (r := Js.floor ((p * 255 - IZR F) * 255 + / 2)) in *.
  replace (IZR r / 255 / 255 + IZR F / 255 - p)
    with ((IZR r - (p * 255 - IZR F) * 255) / 65025) by field.
  unfold Rdiv. rewrite Rabs_mult, (Rabs_pos_eq (/ 65025)) by lra.
  assert (Rabs (IZR r - (p * 255 - IZR F) * 255) <= / 2)
    by (unfold Rabs; destruct (Rcase_abs _); lra).
  apply (Rle_trans _ (/ 2 * / 65025)); [apply Rmult_le_compat_r; lra | lra].
Qed.

(** Round trip of the particle state texture: a position in the unit
    square, encoded by [main] into two RGBA8 bytes per coordinate, stored,
    and decoded in the next frame comes back within [1 / 130050] (half of
    [1 / 255^2]) in each coordinate. *)
Theorem state_texture_roundtrip (pos : vec2) :
  0 <= vx pos <= 1 -> 0 <= vy pos <= 1 ->
  let q := decode_pos (store (encode_pos pos)) in
  Rabs (vx q - vx pos) <= / 130050 /\ Rabs (vy q - vy pos) <= / 130050.
Proof.
  intros Hx Hy. cbv zeta. unfold decode_pos, store, encode_pos. cbn [vx vy v4x v4y v4z v4w].
  unfold vfract, vfloor, vscale. cbn [vx vy].
  split; apply coord_roundtrip; assumption.
Qed.

Lemma state_texture_roundtrip_witness :
  (0 <= vx (v2 (1 / 3) 1) <= 1 /\ 0 <= vy (v2 (1 / 3) 1) <= 1) /\
  let q := decode_pos (store (encode_pos (v2 (1 / 3) 1))) in
  Rabs (vx q - vx (v2 (1 / 3) 1)) <= / 130050 /\ Rabs (vy q - vy (v2 (1 / 3) 1)) <= / 130050.
Proof.
  split; [cbn [vx vy]; lra|]. apply state_texture_roundtrip; cbn [vx vy]; lra.
Defined.

(** Composed with the update shader of [part_002]: whatever the wind,
    uniforms and particle, the position [main] writes lies in the unit
    square (it ends with [clamp(pos, 0.0, 1.0)]), so the position read
    back from the state texture in the next frame is within [1 / 130050]
    of it. *)
Theorem update002_state_readback (u_wind : vec2 -> vec2) (u : Update002.Uniforms)
    (v_tex_pos pos : vec2) :
  let p := Update002.main u_wind u v_tex_pos pos in
  let q := decode_pos (store (encode_pos p)) in
  0 <= vx p <= 1 /\ 0 <= vy p <= 1
  /\ Rabs (vx q - vx p) <= / 130050 /\ Rabs (vy q - vy p) <= / 130050.
Proof.
  cbv zeta.
  assert (Hx : 0 <= vx (Update002.main u_wind u v_tex_pos pos) <= 1)
    by (unfold Update002.main, vclamp; cbv zeta; cbn [vx]; apply clamp01_range).
  assert (Hy : 0 <= vy (Update002.main u_wind u v_tex_pos pos) <= 1)
    by (unfold Update002.main, vclamp; cbv zeta; cbn [vy]; apply clamp01_range).
  split; [exact Hx|]. split; [exact Hy|].
  unfold decode_pos, store, encode_pos. cbn [vx vy v4x v4y v4z v4w].
  unfold vfract, vfloor, vscale. cbn [vx vy].
  split; apply coord_roundtrip; assumption.
Qed.

Lemma mix_unit (a b t : R) : 0 <= a < 1 -> 0 <= b < 1 -> 0 <= t <= 1 ->
  0 <= Js.mix a b t < 1.
Proof.
  intros Ha Hb Ht. unfold Js.mix.
  destruct (Req_dec_T t 1) as [E|E].
  - subst t. lra.
  - split; [nra|]. assert (a * (1 - t) < 1 - t) by nra. nra.
Qed.

(** The same for the update shader of [part_003], which wraps with
    [fract] instead of clamping: every position it writes lies in
    [[0, 1)] in both coordinates (the wrapped position, or the random
    respawn position), and reads back from the state texture within
    [1 / 130050]. *)
Theorem update003_state_readback (u_wind : vec2 -> vec2) (u : Update003.Uniforms)
    (v_tex_pos pos : vec2) :
  let p := Update003.main u_wind u v_tex_pos pos in
  let q := decode_pos (store (encode_pos p)) in
  0 <= vx p < 1 /\ 0 <= vy p < 1
  /\ Rabs (vx q - vx p) <= / 130050 /\ Rabs (vy q - vy p) <= / 130050.
Proof.
  cbv zeta.
  assert (Hx : 0 <= vx (Update003.main u_wind u v_tex_pos pos) < 1)
    by (unfold Update003.main, vmixs, vfract; cbv zeta; cbn [vx vy];
        apply mix_unit; [apply ShaderFacts.fract_range | apply ShaderFacts.rand_range
                        | apply ShaderFacts.step_01]).
  assert (Hy : 0 <= vy (Update003.main u_wind u v_tex_pos pos) < 1)
    by (unfold Update003.main, vmixs, vfract; cbv zeta; cbn [vx vy];
        apply mix_unit; [apply ShaderFacts.fract_range | apply ShaderFacts.rand_range
                        | apply ShaderFacts.step_01]).
  split; [exact Hx|]. split; [exact Hy|].
  unfold decode_pos, store, encode_pos. cbn [vx vy v4x v4y v4z v4w].
  unfold vfract, vfloor, vscale. cbn [vx vy].
  split; apply coord_roundtrip; lra.
Qed.

End StatePackingExtra.
